(** * Takam Tourism: the application shell, the trail map view and the
      geodesy helper of [src/App.tsx], embedded in Rocq.

    JavaScript numbers are IEEE-754 binary64 values, modelled by Rocq's
    primitive [float]; strings are [string]; arrays are lists read with
    stdpp's lookup.  The React state of [App] is a record updated through its
    setters; the handlers run in a small state-and-exception monad that also
    keeps the order in which setters, dialogs and services are called.  An
    asynchronous handler is run to its end in one piece: what other handlers
    do while it waits is not interleaved.  The Leaflet widget is an external
    collaborator: the model hands out object identities and records what
    each object was created with, the layers added to each map and the camera
    calls each map received; failures inside the widget are not modelled. *)

From stdpp Require Import base list strings gmap.
From Stdlib Require Import ZArith QArith Qabs Qround Floats Uint63 Ascii DecimalString Lia.
From Stdlib Require DecimalPos.
From Equations Require Import Equations.

#[local] Set Warnings "-inexact-float,-clear-no-such-hyp".
#[local] Open Scope Z_scope.

(** ** JavaScript built-ins used by the source *)

(** A thrown JavaScript value. *)
Inductive JsError : Type :=
| TypeError (msg : string)
| ServiceError (msg : string).

(** [arr[i]]: [undefined] (here [None]) outside the array. *)
Definition array_get {A : Type} (arr : list A) (i : Z) : option A :=
  if i <? 0 then None else arr !! Z.to_nat i.

(** The integer [n] for which [n / 10^f - m * 2^e] is as close to zero as
    possible, the larger one when two are equally close
    (Number.prototype.toFixed, step "let n be an integer ..."). *)
Definition nearest_scaled (m : positive) (e : Z) (f : nat) : Z :=
  let num := Z.pos m * 10 ^ Z.of_nat f in
  if 0 <=? e then num * 2 ^ e
  else (2 * num + 2 ^ (- e)) / 2 ^ (1 - e).

Definition zeros (k : nat) : string :=
  Nat.iter k (String.append "0") EmptyString.

(** The decimal digits of [n], a decimal point before the last [f] of them,
    zeros added on the left so that one digit stands before the point. *)
Definition fixed_digits (n : Z) (f : nat) : string :=
  let m := NilEmpty.string_of_uint (N.to_uint (Z.to_N n)) in
  match f with
  | O => m
  | _ =>
      let m := if (String.length m <=? f)%nat
               then String.app (zeros (f + 1 - String.length m)) m else m in
      let k := String.length m in
      String.app (String.substring 0 (k - f) m)
                 (String.app "." (String.substring (k - f) f m))
  end.

Section Number.

(** [Number::toString], which [toFixed] falls back on from 10^21 upwards. *)
Variable Number_toString : float -> string.

(** [x.toFixed(f)] as ECMAScript defines it. *)
Definition toFixed (x : float) (f : nat) : string :=
  match Prim2SF x with
  | S754_nan => "NaN"
  | S754_infinity s =>
      String.app (if s then "-" else "") (Number_toString (abs x))
  | S754_zero _ => fixed_digits 0 f
  | S754_finite s m e =>
      String.app (if s then "-" else "")
        (if (1e21 <=? abs x)%float then Number_toString (abs x)
         else fixed_digits (nearest_scaled m e f) f)
  end.

End Number.

(** The mathematical value of a finite number, [None] for NaN and the
    infinities. *)
Definition float_value (x : float) : option Q :=
  match Prim2SF x with
  | S754_zero _ => Some 0%Q
  | S754_finite s m e =>
      let v := if 0 <=? e then inject_Z (Z.pos m * 2 ^ e)
               else Qmake (Z.pos m) (Z.to_pos (2 ^ (- e))) in
      Some (if s then Qopp v else v)
  | _ => None
  end.

(** ** Data model *)

(** [TrekPoint] as the literals of [MOCK_TREK_DATA] give it. *)
Record TrekPoint : Type := {
  day : float;
  altitude : float;
  label : string;
  lat : float;
  lng : float
}.

Definition MOCK_TREK_DATA : list TrekPoint := [
  {| day := 1; altitude := 830; label := "Beni"; lat := 28.3444; lng := 83.5651 |};
  {| day := 2; altitude := 1200; label := "Darbang"; lat := 28.4067; lng := 83.4000 |};
  {| day := 3; altitude := 1670; label := "Takam Village"; lat := 28.4230; lng := 83.3333 |};
  {| day := 4; altitude := 2200; label := "Muri Village"; lat := 28.4833; lng := 83.2500 |};
  {| day := 5; altitude := 3100; label := "Boghara"; lat := 28.5333; lng := 83.2333 |};
  {| day := 6; altitude := 3660; label := "Dobang"; lat := 28.5833; lng := 83.2167 |};
  {| day := 7; altitude := 4740; label := "Dhaulagiri BC"; lat := 28.6750; lng := 83.4722 |}
]%float.

(** A Leaflet [LatLng], built by [L.latLng(lat, lng)] or from [[lat, lng]]. *)
Record LatLng : Type := latLng { ll_lat : float; ll_lng : float }.

(** ** Geodesy helper *)

Section Geodesy.

Variable Number_toString : float -> string.

(** Leaflet's [LatLng.distanceTo], in metres. *)
Variable distanceTo : LatLng -> LatLng -> float.

(** The [for] loop of [calculateTotalDistance], from index [i] with the
    running [total]. *)
Equations? distance_loop (points : list TrekPoint) (i : Z) (total : float)
  : JsError + float
  by wf (Z.to_nat (Z.of_nat (length points) - 1 - i)) lt :=
distance_loop points i total with Z_lt_dec i (Z.of_nat (length points) - 1) => {
  | right _ => inr total
  | left _ with array_get points i, array_get points (i + 1) => {
    | Some a, Some b =>
        let p1 := latLng (lat a) (lng a) in
        let p2 := latLng (lat b) (lng b) in
        distance_loop points (i + 1) (total + distanceTo p1 p2)%float
    | _, _ => inl (TypeError "Cannot read properties of undefined")
    }
  }.
Proof. lia. Qed.

Definition calculateTotalDistance (points : list TrekPoint) : JsError + string :=
  match distance_loop points 0 0%float with
  | inl err => inl err
  | inr total => inr (toFixed Number_toString (total / 1000)%float 2)
  end.

(** What the specification asks for: the consecutive pairs of the sequence,
    and the distances of these pairs added up in order. *)
Fixpoint consecutive_pairs (points : list TrekPoint) : list (TrekPoint * TrekPoint) :=
  match points with
  | a :: (b :: _) as rest => (a, b) :: consecutive_pairs rest
  | _ => []
  end.

Definition add_leg (acc : float) (leg : TrekPoint * TrekPoint) : float :=
  (acc + distanceTo (latLng (lat (fst leg)) (lng (fst leg)))
                    (latLng (lat (snd leg)) (lng (snd leg))))%float.

Definition pairwise_distance_sum (points : list TrekPoint) : float :=
  fold_left add_leg (consecutive_pairs points) 0%float.

End Geodesy.


(** The binary64 number nearest to the integer [n]. *)
Definition Z2float (n : Z) : float :=
  SF2Prim (binary_normalize prec emax n 0 false).

(** The integer closest to [(-1)^s * m * 2^e] for [e < 0], the one towards
    +infinity on a tie: the floor of that number plus one half. *)
Definition round_half_up (s : bool) (m : positive) (e : Z) : Z :=
  let sm := if s then Z.neg m else Z.pos m in
  (2 * sm + 2 ^ (- e)) / 2 ^ (1 - e).

(** [Math.round]: not finite or already integral, the number itself;
    otherwise the integer closest to it, the one towards +infinity on a tie,
    and a zero result keeps the sign of the argument. *)
Definition Math_round (x : float) : float :=
  match Prim2SF x with
  | S754_finite s m e =>
      if 0 <=? e then x
      else
        let n := round_half_up s m e in
        if n =? 0 then (if s then PrimFloat.neg_zero else PrimFloat.zero) else Z2float n
  | _ => x
  end.

(** [s.split(sep)] for a one-character separator. *)
Fixpoint split_on (sep : ascii) (s : string) : list string :=
  match s with
  | EmptyString => [EmptyString]
  | String c rest =>
      if Ascii.eqb c sep then EmptyString :: split_on sep rest
      else match split_on sep rest with
           | piece :: pieces => String c piece :: pieces
           | [] => [String c EmptyString]
           end
  end.

Definition comma : ascii := Ascii.ascii_of_nat 44.

(** ** The state of [App] *)

Inductive Tab : Type := home | scanner | trek | about.

Record MountainInfo : Type := {
  mi_name : string;
  mi_elevation : string;
  mi_significance : string;
  mi_difficulty : string;
  mi_weatherForecast : option string;
  mi_description : string
}.

Record VillageInfo : Type := {
  vi_name : string;
  vi_region : string;
  vi_altitude : string;
  vi_culture : string;
  vi_highlights : list string
}.

Record WeatherData : Type := { temp : float; desc : string }.

(** The [{ lat, lng }] object held in [currentLocation]. *)
Record Location : Type := { loc_lat : float; loc_lng : float }.

Record AppState : Type := {
  activeTab : Tab;
  landmark : option MountainInfo;
  village : option VillageInfo;
  loading : bool;
  weatherData : option WeatherData;
  currentAltitude : option float;
  currentLocation : Location;
  previewImage : option string
}.

(** The arguments of the [useState] calls. *)
Definition initial_state : AppState := {|
  activeTab := home;
  landmark := None;
  village := None;
  loading := false;
  weatherData := None;
  currentAltitude := None;
  currentLocation := {| loc_lat := 28.4230; loc_lng := 83.3333 |};
  previewImage := None
|}.

(** [position.coords] of a geolocation reading. *)
Record Coords : Type := {
  latitude : float;
  longitude : float;
  coords_altitude : option float
}.

(** The calls a handler makes that leave the component: state setters,
    dialogs, the console, the services and the platform. *)
Inductive Service : Type :=
| identifyLandmark_call (base64Data : option string)
| getVillageInsights_call (name : string)
| getSearchInfo_call (query : string).

Inductive Event : Type :=
| SetActiveTab (t : Tab)
| SetLandmark (l : option MountainInfo)
| SetVillage (v : option VillageInfo)
| SetLoading (b : bool)
| SetWeatherData (w : option WeatherData)
| SetCurrentAltitude (a : option float)
| SetCurrentLocation (l : Location)
| SetPreviewImage (p : option string)
| Alert (msg : string)
| ConsoleError (err : JsError)
| Call (s : Service)
| Settled (s : Service)
| GetCurrentPosition
| WatchPosition (watchId : nat)
| ClearWatch (watchId : nat).

(** ** The Leaflet widget, as far as the view uses it *)

Record DivIcon : Type := {
  className : string;
  html : string;
  iconSize : float * float;
  iconAnchor : float * float
}.

Record PolylineOptions : Type := {
  color : string;
  weight : float;
  opacity : float;
  lineCap : string;
  lineJoin : string;
  dashArray : string
}.

(** A layer object, with what it was constructed from.  Identities are
    positions in the store of layer objects. *)
Inductive Layer : Type :=
| TileLayer (urlTemplate : string) (maxZoom : float)
| Marker (position : LatLng) (icon : DivIcon) (zIndexOffset : option float)
| Polyline (latlngs : list LatLng) (options : PolylineOptions).

(** The result of [getBounds()]: the box around these points.  The widget
    computes it; the model keeps the points. *)
Record LatLngBounds : Type := bounds_of { enclosed : list LatLng }.

(** The calls that move a map's camera. *)
Inductive CameraCall : Type :=
| SetView (center : LatLng) (zoom : float)
| FitBounds (b : LatLngBounds) (padding : float * float)
| FlyTo (center : LatLng) (zoom : float)
| FlyToBounds (b : LatLngBounds) (padding : float * float).

(** A map instance: the element and options it was constructed with, the
    camera calls it received (oldest first) and the layers added to it (in
    the order of [addTo]). *)
Record LMap : Type := {
  container : nat;
  zoomControl : bool;
  attributionControl : bool;
  camera : list CameraCall;
  layers : list nat
}.

Record LeafletStore : Type := {
  maps : list LMap;
  objects : list Layer
}.

(** The refs of a mounted [SatelliteMapView]; [None] is [null]. *)
Record ViewRefs : Type := {
  mapRef : option nat;
  leafletMap : option nat;
  userMarker : option nat;
  trailLayer : option nat
}.

(** ** The world the handlers run in *)

(** [navigator.geolocation]: the next watch identifier and the active
    watches. *)
Record Geolocation : Type := {
  next_watch : nat;
  active_watches : gset nat
}.

Record World : Type := {
  app : AppState;
  trace : list Event;
  geolocation : option Geolocation;
  refs : ViewRefs;
  leaflet : LeafletStore
}.

(** A computation: it ends normally with a value or throws, and leaves a
    world. *)
Definition M (A : Type) : Type := World -> (JsError + A) * World.

#[global] Instance M_ret : MRet M := fun A a w => (inr a, w).

#[global] Instance M_bind : MBind M := fun A B k m w =>
  match m w with
  | (inr a, w') => k a w'
  | (inl err, w') => (inl err, w')
  end.

#[global] Instance M_throw : MThrow JsError M := fun A err w => (inl err, w).

(** [try { body } catch (err) { handler err } finally { finalizer }] *)
Definition try_catch_finally {A : Type}
    (body : M A) (handler : JsError -> M A) (finalizer : M unit) : M A :=
  fun w =>
    let '(r, w1) :=
      match body w with
      | (inr a, w') => (inr a, w')
      | (inl err, w') => handler err w'
      end in
    match finalizer w1 with
    | (inr _, w2) => (r, w2)
    | (inl err, w2) => (inl err, w2)
    end.

(** The world after a computation, and its outcome. *)
Definition exec {A : Type} (m : M A) (w : World) : World := snd (m w).
Definition outcome {A : Type} (m : M A) (w : World) : JsError + A := fst (m w).

Definition modify (f : World -> World) : M unit := fun w => (inr tt, f w).

Definition log (ev : Event) (w : World) : World :=
  {| app := app w; trace := trace w ++ [ev]; geolocation := geolocation w;
     refs := refs w; leaflet := leaflet w |}.

Definition with_app (f : AppState -> AppState) (w : World) : World :=
  {| app := f (app w); trace := trace w; geolocation := geolocation w;
     refs := refs w; leaflet := leaflet w |}.

Definition with_geolocation (g : option Geolocation) (w : World) : World :=
  {| app := app w; trace := trace w; geolocation := g;
     refs := refs w; leaflet := leaflet w |}.

Definition with_refs (r : ViewRefs) (w : World) : World :=
  {| app := app w; trace := trace w; geolocation := geolocation w;
     refs := r; leaflet := leaflet w |}.

Definition with_leaflet (l : LeafletStore) (w : World) : World :=
  {| app := app w; trace := trace w; geolocation := geolocation w;
     refs := refs w; leaflet := l |}.

(** *** The state setters: each replaces one field and is recorded. *)

Definition setActiveTab (t : Tab) : M unit :=
  modify (fun w => log (SetActiveTab t) (with_app (fun s =>
    {| activeTab := t; landmark := landmark s; village := village s;
       loading := loading s; weatherData := weatherData s;
       currentAltitude := currentAltitude s;
       currentLocation := currentLocation s;
       previewImage := previewImage s |}) w)).

Definition setLandmark (l : option MountainInfo) : M unit :=
  modify (fun w => log (SetLandmark l) (with_app (fun s =>
    {| activeTab := activeTab s; landmark := l; village := village s;
       loading := loading s; weatherData := weatherData s;
       currentAltitude := currentAltitude s;
       currentLocation := currentLocation s;
       previewImage := previewImage s |}) w)).

Definition setVillage (v : option VillageInfo) : M unit :=
  modify (fun w => log (SetVillage v) (with_app (fun s =>
    {| activeTab := activeTab s; landmark := landmark s; village := v;
       loading := loading s; weatherData := weatherData s;
       currentAltitude := currentAltitude s;
       currentLocation := currentLocation s;
       previewImage := previewImage s |}) w)).

Definition setLoading (b : bool) : M unit :=
  modify (fun w => log (SetLoading b) (with_app (fun s =>
    {| activeTab := activeTab s; landmark := landmark s; village := village s;
       loading := b; weatherData := weatherData s;
       currentAltitude := currentAltitude s;
       currentLocation := currentLocation s;
       previewImage := previewImage s |}) w)).

Definition setWeatherData (d : option WeatherData) : M unit :=
  modify (fun w => log (SetWeatherData d) (with_app (fun s =>
    {| activeTab := activeTab s; landmark := landmark s; village := village s;
       loading := loading s; weatherData := d;
       currentAltitude := currentAltitude s;
       currentLocation := currentLocation s;
       previewImage := previewImage s |}) w)).

Definition setCurrentAltitude (a : option float) : M unit :=
  modify (fun w => log (SetCurrentAltitude a) (with_app (fun s =>
    {| activeTab := activeTab s; landmark := landmark s; village := village s;
       loading := loading s; weatherData := weatherData s;
       currentAltitude := a;
       currentLocation := currentLocation s;
       previewImage := previewImage s |}) w)).

Definition setCurrentLocation (l : Location) : M unit :=
  modify (fun w => log (SetCurrentLocation l) (with_app (fun s =>
    {| activeTab := activeTab s; landmark := landmark s; village := village s;
       loading := loading s; weatherData := weatherData s;
       currentAltitude := currentAltitude s;
       currentLocation := l;
       previewImage := previewImage s |}) w)).

Definition setPreviewImage (p : option string) : M unit :=
  modify (fun w => log (SetPreviewImage p) (with_app (fun s =>
    {| activeTab := activeTab s; landmark := landmark s; village := village s;
       loading := loading s; weatherData := weatherData s;
       currentAltitude := currentAltitude s;
       currentLocation := currentLocation s;
       previewImage := p |}) w)).

(** [alert(msg)] and [console.error(err)]. *)
Definition alert (msg : string) : M unit := modify (log (Alert msg)).
Definition console_error (err : JsError) : M unit := modify (log (ConsoleError err)).

(** [await service(...)]: the call is recorded, then its settling; a
    rejection is thrown at the [await]. *)
Definition await {A : Type} (s : Service) (result : JsError + A) : M A :=
  modify (log (Call s));;
  modify (log (Settled s));;
  match result with
  | inr a => mret a
  | inl err => mthrow err
  end.

(** ** The application shell *)

Section Shell.

(** The [File] objects of an upload, and what reading one as a data URL
    yields: [Some] the text handed to [reader.onload], [None] when the read
    fails and [onload] never fires. *)
Variable File : Type.
Variable readAsDataURL : File -> option string.

(** The services of [./services/geminiService], by what each call settles
    with. *)
Record SearchResult : Type := { text : string }.
Variable identifyLandmark : option string -> JsError + MountainInfo.
Variable getVillageInsights : string -> JsError + VillageInfo.
Variable getSearchInfo : string -> JsError + SearchResult.

Definition loadVillageData (name : string) : M unit :=
  setLoading true;;
  try_catch_finally
    (data ← await (getVillageInsights_call name) (getVillageInsights name);
     setVillage (Some data);;
     let query := "current weather in Takam Nepal Myagdi" in
     search ← await (getSearchInfo_call query) (getSearchInfo query);
     setWeatherData (Some {| temp := 16;
                             desc := String.app (String.substring 0 100 (text search)) "..." |}))
    (fun error => console_error error)
    (setLoading false).

(** The body of [reader.onload] in [handleFileUpload]. *)
Definition reader_onload (fullBase64 : string) : M unit :=
  setPreviewImage (Some fullBase64);;
  let base64Data := array_get (split_on comma fullBase64) 1 in
  try_catch_finally
    (info ← await (identifyLandmark_call base64Data) (identifyLandmark base64Data);
     setLandmark (Some info);;
     setActiveTab scanner)
    (fun err => alert "Failed to identify feature. Please try a clearer shot.")
    (setLoading false).

(** [handleFileUpload], given [event.target.files] ([None] for [null]). *)
Definition handleFileUpload (files : option (list File)) : M unit :=
  match files ≫= (fun fs => array_get fs 0) with
  | None => mret tt
  | Some file =>
      setLoading true;;
      match readAsDataURL file with
      | Some fullBase64 => reader_onload fullBase64
      | None => mret tt
      end
  end.

(** The success callback given to [getCurrentPosition] and the one given to
    [watchPosition]. *)
Definition getCurrentPosition_success (pos : Coords) : M unit :=
  setCurrentLocation {| loc_lat := latitude pos; loc_lng := longitude pos |};;
  match coords_altitude pos with
  | Some a => setCurrentAltitude (Some (Math_round a))
  | None => mret tt
  end.

Definition watchPosition_success (position : Coords) : M unit :=
  setCurrentLocation {| loc_lat := latitude position; loc_lng := longitude position |};;
  match coords_altitude position with
  | Some a => setCurrentAltitude (Some (Math_round a))
  | None => mret tt
  end.

Definition watchPosition_error (error : JsError) : M unit := console_error error.

(** ["geolocation" in navigator], with the service when it is there. *)
Definition navigator_geolocation : M (option Geolocation) :=
  fun w => (inr (geolocation w), w).

(** [navigator.geolocation.watchPosition] and [clearWatch]. *)
Definition watchPosition (g : Geolocation) : M nat :=
  let watchId := next_watch g in
  modify (fun w => log (WatchPosition watchId) (with_geolocation
    (Some {| next_watch := S watchId;
             active_watches := {[ watchId ]} ∪ active_watches g |}) w));;
  mret watchId.

Definition clearWatch (watchId : nat) : M unit :=
  modify (fun w => log (ClearWatch watchId) (with_geolocation
    (match geolocation w with
     | Some g => Some {| next_watch := next_watch g;
                         active_watches := active_watches g ∖ {[ watchId ]} |}
     | None => None
     end) w)).

(** The first effect of [App]: it runs once, on mount. *)
Definition App_effect_load : M unit :=
  loadVillageData "Takam Village, Myagdi";;
  g ← navigator_geolocation;
  match g with
  | Some _ => modify (log GetCurrentPosition)
  | None => mret tt
  end.

(** The second effect of [App]: it subscribes on mount and returns the
    cleanup to run on teardown, if there is one. *)
Definition App_effect_watch : M (option (M unit)) :=
  g ← navigator_geolocation;
  match g with
  | Some g => watchId ← watchPosition g; mret (Some (clearWatch watchId))
  | None => mret None
  end.

(** Teardown of the shell: the cleanup of the second effect runs. *)
Definition App_teardown (cleanup : option (M unit)) : M unit :=
  match cleanup with
  | Some c => c
  | None => mret tt
  end.

(** [currentAltitude ?? MOCK_TREK_DATA[2].altitude], the property read
    throwing on [undefined]. *)
Definition displayedAltitude (s : AppState) : JsError + float :=
  match currentAltitude s with
  | Some a => inr a
  | None =>
      match array_get MOCK_TREK_DATA 2 with
      | Some p => inr (altitude p)
      | None => inl (TypeError "Cannot read properties of undefined")
      end
  end.

(** The handlers of the other controls. *)
Definition scan_next : M unit := setLandmark None;; setPreviewImage None.

(** What can happen to a mounted shell. *)
Inductive ShellEvent : Type :=
| Mounted
| FileChosen (files : option (list File))
| PositionOnce (pos : Coords)
| PositionWatched (position : Coords)
| PositionFailed (error : JsError)
| TabClicked (t : Tab)
| ScanNextClicked.

Definition handle (ev : ShellEvent) : M unit :=
  match ev with
  | Mounted => App_effect_load;; _ ← App_effect_watch; mret tt
  | FileChosen files => handleFileUpload files
  | PositionOnce pos => getCurrentPosition_success pos
  | PositionWatched position => watchPosition_success position
  | PositionFailed error => watchPosition_error error
  | TabClicked t => setActiveTab t
  | ScanNextClicked => scan_next
  end.

Fixpoint run (evs : list ShellEvent) (w : World) : World :=
  match evs with
  | [] => w
  | ev :: rest => run rest (exec (handle ev) w)
  end.

(** The reading a shell event delivers, if it is a position callback. *)
Definition reading (ev : ShellEvent) : option Coords :=
  match ev with
  | PositionOnce pos => Some pos
  | PositionWatched position => Some position
  | _ => None
  end.

End Shell.

(** ** The trail map view *)

(** The double quote character, for the markup below. *)
Definition dq : string := String (Ascii.ascii_of_nat 34) EmptyString.

Definition userIcon_html : string :=
  String.concat EmptyString
    ["<div class=";
     dq;
     "w-6 h-6 bg-blue-500 rounded-full border-4 border-white shadow-xl ring-4 ring-blue-500/20 animate-pulse";
     dq;
     "></div>"].

(** The waypoint icon's template literal, before and after [${p.label}]. *)
Definition wpIcon_html_before : string :=
  String.concat EmptyString
    ["<div class=";
     dq;
     "flex flex-col items-center";
     dq;
     ">
                   <div class=";
     dq;
     "w-4 h-4 bg-white rounded-full border-2 border-emerald-600 shadow-sm";
     dq;
     "></div>
                   <div class=";
     dq;
     "mt-1 px-2 py-0.5 bg-slate-900/80 backdrop-blur-sm text-white text-[8px] font-black rounded-md whitespace-nowrap border border-white/20";
     dq;
     ">"].

Definition wpIcon_html_after : string :=
  String.concat EmptyString
    ["</div>
                 </div>"].

Definition userIcon : DivIcon := {|
  className := "custom-user-icon";
  html := userIcon_html;
  iconSize := (24, 24)%float;
  iconAnchor := (12, 12)%float
|}.

Definition wpIcon (p : TrekPoint) : DivIcon := {|
  className := "wp-icon";
  html := String.app wpIcon_html_before (String.app (label p) wpIcon_html_after);
  iconSize := (60, 40)%float;
  iconAnchor := (30, 8)%float
|}.

Definition trailStyle : PolylineOptions := {|
  color := "#10b981";
  weight := 6;
  opacity := 0.8;
  lineCap := "round";
  lineJoin := "round";
  dashArray := "1, 12"
|}.

Definition imagery_url : string :=
  "https://server.arcgisonline.com/ArcGIS/rest/services/World_Imagery/MapServer/tile/{z}/{y}/{x}".

(** [L.latLng(p.lat, p.lng)], also what [[p.lat, p.lng]] denotes. *)
Definition waypoint_latLng (p : TrekPoint) : LatLng := latLng (lat p) (lng p).

(** *** The widget's operations *)

(** A map instance with one more layer, and with one more camera call. *)
Definition with_layer (mp : LMap) (ly : nat) : LMap :=
  {| container := container mp; zoomControl := zoomControl mp;
     attributionControl := attributionControl mp;
     camera := camera mp; layers := layers mp ++ [ly] |}.

Definition with_camera (mp : LMap) (c : CameraCall) : LMap :=
  {| container := container mp; zoomControl := zoomControl mp;
     attributionControl := attributionControl mp;
     camera := camera mp ++ [c]; layers := layers mp |}.

Definition null_deref {A : Type} : M A :=
  mthrow (TypeError "Cannot read properties of null").

(** [L.map(el, { zoomControl, attributionControl })]: a new map instance. *)
Definition L_map (el : nat) (zc ac : bool) : M nat :=
  fun w =>
    let l := leaflet w in
    (inr (length (maps l)),
     with_leaflet
       {| maps := maps l ++ [ {| container := el; zoomControl := zc;
                                  attributionControl := ac;
                                  camera := []; layers := [] |} ];
          objects := objects l |} w).

(** A camera call on map [m]; like Leaflet's, it returns the map. *)
Definition camera_call (m : nat) (c : CameraCall) : M nat :=
  fun w =>
    let l := leaflet w in
    match maps l !! m with
    | Some mp =>
        (inr m,
         with_leaflet {| maps := <[ m := with_camera mp c ]> (maps l);
                         objects := objects l |} w)
    | None => null_deref w
    end.

Definition setView (m : nat) (center : LatLng) (zoom : float) : M nat :=
  camera_call m (SetView center zoom).
Definition fitBounds (m : nat) (b : LatLngBounds) (padding : float * float) : M nat :=
  camera_call m (FitBounds b padding).
Definition flyTo (m : nat) (center : LatLng) (zoom : float) : M nat :=
  camera_call m (FlyTo center zoom).
Definition flyToBounds (m : nat) (b : LatLngBounds) (padding : float * float) : M nat :=
  camera_call m (FlyToBounds b padding).

(** [L.tileLayer], [L.marker] and [L.polyline]: a new layer object. *)
Definition new_layer (ly : Layer) : M nat :=
  fun w =>
    let l := leaflet w in
    (inr (length (objects l)),
     with_leaflet {| maps := maps l; objects := objects l ++ [ly] |} w).

Definition L_tileLayer (url : string) (maxZoom : float) : M nat :=
  new_layer (TileLayer url maxZoom).
Definition L_marker (pos : LatLng) (icon : DivIcon) (z : option float) : M nat :=
  new_layer (Marker pos icon z).
Definition L_polyline (latlngs : list LatLng) (opts : PolylineOptions) : M nat :=
  new_layer (Polyline latlngs opts).

(** [layer.addTo(map)]: the layer joins the map's layers and is returned. *)
Definition addTo (ly : nat) (m : nat) : M nat :=
  fun w =>
    let l := leaflet w in
    match maps l !! m with
    | Some mp =>
        (inr ly,
         with_leaflet {| maps := <[ m := with_layer mp ly ]> (maps l);
                         objects := objects l |} w)
    | None => null_deref w
    end.

(** [marker.setLatLng(pos)]: the marker moves; nothing else of it changes. *)
Definition setLatLng (mk : nat) (pos : LatLng) : M unit :=
  fun w =>
    let l := leaflet w in
    match objects l !! mk with
    | Some (Marker _ icon z) =>
        (inr tt,
         with_leaflet {| maps := maps l;
                         objects := <[ mk := Marker pos icon z ]> (objects l) |} w)
    | _ => (inl (TypeError "setLatLng is not a function"), w)
    end.

(** [polyline.getBounds()]. *)
Definition getBounds (pl : nat) : M LatLngBounds :=
  fun w =>
    match objects (leaflet w) !! pl with
    | Some (Polyline latlngs _) => (inr (bounds_of latlngs), w)
    | _ => (inl (TypeError "getBounds is not a function"), w)
    end.

(** *** The refs *)

Definition get_refs : M ViewRefs := fun w => (inr (refs w), w).

Definition set_leafletMap (m : option nat) : M unit :=
  modify (fun w => with_refs
    {| mapRef := mapRef (refs w); leafletMap := m;
       userMarker := userMarker (refs w); trailLayer := trailLayer (refs w) |} w).

Definition set_userMarker (mk : option nat) : M unit :=
  modify (fun w => with_refs
    {| mapRef := mapRef (refs w); leafletMap := leafletMap (refs w);
       userMarker := mk; trailLayer := trailLayer (refs w) |} w).

Definition set_trailLayer (pl : option nat) : M unit :=
  modify (fun w => with_refs
    {| mapRef := mapRef (refs w); leafletMap := leafletMap (refs w);
       userMarker := userMarker (refs w); trailLayer := pl |} w).

(** [leafletMap.current] where the source passes it on as a map (it throws
    inside the widget when [null]), and [trailLayer.current] likewise. *)
Definition leafletMap_current : M nat :=
  r ← get_refs;
  match leafletMap r with Some m => mret m | None => null_deref end.

Definition trailLayer_current : M nat :=
  r ← get_refs;
  match trailLayer r with Some pl => mret pl | None => null_deref end.

(** [arr.forEach(f)]. *)
Fixpoint forEach {A : Type} (arr : list A) (f : A -> M unit) : M unit :=
  match arr with
  | [] => mret tt
  | x :: rest => f x;; forEach rest f
  end.

(** *** The component *)

(** The body of the effect of [SatelliteMapView], run after a render with
    the props [lat], [lng] and [trail]. *)
Definition SatelliteMapView_effect (lat lng : float) (trail : list TrekPoint) : M unit :=
  r ← get_refs;
  match mapRef r, leafletMap r with
  | Some el, None =>
      m ← (m0 ← L_map el false false; setView m0 (latLng lat lng) 13);
      set_leafletMap (Some m);;

      t ← L_tileLayer imagery_url 19;
      m ← leafletMap_current;
      addTo t m;;

      mk ← (k ← L_marker (latLng lat lng) userIcon (Some 1000%float);
            m ← leafletMap_current;
            addTo k m);
      set_userMarker (Some mk);;

      let latLngs := map waypoint_latLng trail in
      pl ← (k ← L_polyline latLngs trailStyle;
            m ← leafletMap_current;
            addTo k m);
      set_trailLayer (Some pl);;

      forEach trail (fun p =>
        k ← L_marker (waypoint_latLng p) (wpIcon p) None;
        m ← leafletMap_current;
        addTo k m;;
        mret tt);;

      m ← leafletMap_current;
      pl ← trailLayer_current;
      b ← getBounds pl;
      fitBounds m b (50, 50)%float;;
      mret tt
  | _, _ => mret tt
  end;;
  r ← get_refs;
  match leafletMap r with
  | Some _ =>
      match userMarker r with
      | Some mk => setLatLng mk (latLng lat lng)
      | None => mret tt
      end
  | None => mret tt
  end.

(** [handleRecenter] and [showEntireTrail], closed over the props of the
    last render. *)
Definition handleRecenter (lat lng : float) : M unit :=
  r ← get_refs;
  match leafletMap r with
  | Some m => flyTo m (latLng lat lng) 15;; mret tt
  | None => mret tt
  end.

Definition showEntireTrail : M unit :=
  r ← get_refs;
  match trailLayer r with
  | Some pl =>
      match leafletMap r with
      | Some m => b ← getBounds pl; flyToBounds m b (50, 50)%float;; mret tt
      | None => mret tt
      end
  | None => mret tt
  end.

(** A freshly mounted view: React has set [mapRef] to the rendered element
    (or left it [null]); the other refs start as [null]. *)
Definition mount_view (el : option nat) : M unit :=
  modify (with_refs {| mapRef := el; leafletMap := None;
                       userMarker := None; trailLayer := None |}).

(** The life of a mounted view: the effect after the first render, then
    after each render with a new live location. *)
Fixpoint live_updates (updates : list (float * float)) (trail : list TrekPoint) : M unit :=
  match updates with
  | [] => mret tt
  | (lat, lng) :: rest =>
      SatelliteMapView_effect lat lng trail;; live_updates rest trail
  end.

(** ** Vocabulary of the statements below *)

(** The world of a freshly loaded page: the initial state, nothing recorded,
    no view mounted, an empty widget store. *)
Definition start (g : option Geolocation) : World := {|
  app := initial_state;
  trace := [];
  geolocation := g;
  refs := {| mapRef := None; leafletMap := None; userMarker := None; trailLayer := None |};
  leaflet := {| maps := []; objects := [] |}
|}.

(** Recognisers of recorded calls: [setLoading(b)] and [alert(...)]. *)
Definition is_SetLoading (b : bool) (ev : Event) : bool :=
  match ev with
  | SetLoading b' => Bool.eqb b b'
  | _ => false
  end.

Definition is_Alert (ev : Event) : bool :=
  match ev with
  | Alert _ => true
  | _ => false
  end.

(** The message of the alert in [handleFileUpload]. *)
Definition failure_message : string :=
  "Failed to identify feature. Please try a clearer shot.".

(** The query of the weather search in [loadVillageData]. *)
Definition weather_query : string := "current weather in Takam Nepal Myagdi".

(** What [reader.onload] does once the identification call has settled. *)
Definition reaction (result : JsError + MountainInfo) : list Event :=
  match result with
  | inr info => [SetLandmark (Some info); SetActiveTab scanner]
  | inl _ => [Alert failure_message]
  end.

(** The altitude a shell event reports, if it is a reading with one. *)
Definition reported_altitude {File : Type} (ev : ShellEvent File) : option float :=
  reading File ev ≫= coords_altitude.

(** A map instance without its camera. *)
Definition camera_blind (mp : LMap) : nat * bool * bool * list nat :=
  (container mp, zoomControl mp, attributionControl mp, layers mp).

(** The marker drawn for a waypoint. *)
Definition waypoint_marker (p : TrekPoint) : Layer :=
  Marker (waypoint_latLng p) (wpIcon p) None.

(** The position of the user marker after the first render at [first] and
    the given later updates. *)
Definition last_position (first : float * float) (updates : list (float * float)) : LatLng :=
  let '(lat, lng) := List.last updates first in latLng lat lng.

(** What the specification asks of the distance label: kilometres to two
    decimal places.  [digits n] are the decimal digits of [n] and [digit d]
    is the character of the digit [d]; [two_decimals n] writes [n]
    hundredths, as the digits of [n / 100], a point, and the two digits of
    [n mod 100]; [nearest_hundredths v] is the number of hundredths nearest
    to the size of [v], the larger one when two are equally near; and
    [kilometres_label v] is the label for [v] kilometres. *)
Definition digits (n : Z) : string := NilEmpty.string_of_uint (N.to_uint (Z.to_N n)).

Definition digit (d : Z) : ascii := ascii_of_nat (48 + Z.to_nat d).

Definition two_decimals (n : Z) : string :=
  String.app (digits (n / 100))
    (String "."%char
       (String (digit (n / 10 mod 10)) (String (digit (n mod 10)) EmptyString))).

Definition nearest_hundredths (v : Q) : Z := Qfloor (Qabs v * 100 + (1 # 2)).

Definition kilometres_label (v : Q) : string :=
  String.app (if Qle_bool 0 v then EmptyString else "-")
    (two_decimals (nearest_hundredths v)).

(** Stand-ins for the collaborators, to run the model on examples: a
    distance on a flat map, a service that cannot classify, one that can,
    and files that are read as the same picture. *)
Definition flat_distance (p q : LatLng) : float :=
  (111195 * PrimFloat.sqrt ((ll_lat q - ll_lat p) * (ll_lat q - ll_lat p)
                  + (ll_lng q - ll_lng p) * (ll_lng q - ll_lng p)))%float.

(** Another stand-in: the great-circle lengths in metres, on a sphere of
    radius 6371000 m, of the six legs of the fixed trail, looked up by the
    latitude at which the leg starts. *)
Definition great_circle_on_trail (p q : LatLng) : float :=
  (if ll_lat p =? 28.3444 then 17575.39854109407
   else if ll_lat p =? 28.4067 then 6770.295696929134
   else if ll_lat p =? 28.4230 then 10548.809568086965
   else if ll_lat p =? 28.4833 then 5794.267525650676
   else if ll_lat p =? 28.5333 then 5791.307871464868
   else if ll_lat p =? 28.5833 then 26940.966473740722
   else 0)%float.

Definition no_toString (x : float) : string := "1e+21".

Definition picture : string := "data:image/png;base64,iVBORw0KGgo=".

Definition poon_hill : MountainInfo := {|
  mi_name := "Poon Hill";
  mi_elevation := "3210m";
  mi_significance := "Sunrise view point";
  mi_difficulty := "Moderate";
  mi_weatherForecast := None;
  mi_description := "A hill station above Ghorepani"
|}.

Definition takam : VillageInfo := {|
  vi_name := "Takam";
  vi_region := "Myagdi";
  vi_altitude := "1,670m";
  vi_culture := "Magar";
  vi_highlights := ["Takam Kot"]
|}.

Definition unclassifiable : option string -> JsError + MountainInfo :=
  fun _ => inl (ServiceError "Could not identify landmark").

Definition classifies : option string -> JsError + MountainInfo :=
  fun _ => inr poon_hill.

Definition insight_ok : string -> JsError + VillageInfo := fun _ => inr takam.

Definition insight_down : string -> JsError + VillageInfo :=
  fun _ => inl (ServiceError "network").

Definition search_down : string -> JsError + SearchResult :=
  fun _ => inl (ServiceError "network").

Definition read_picture : unit -> option string := fun _ => Some picture.

(** How many of the events satisfy [p]. *)
Definition occurrences (p : Event -> bool) (evs : list Event) : nat :=
  length (List.filter p evs).

(** The state a handler leaves, written out field by field: after an upload
    whose identification failed, after one that succeeded, after a position
    callback, and after [loadVillageData] (with the village state it
    leaves). *)
Definition upload_failed (s : AppState) (fullBase64 : string) : AppState := {|
  activeTab := activeTab s;
  landmark := landmark s;
  village := village s;
  loading := false;
  weatherData := weatherData s;
  currentAltitude := currentAltitude s;
  currentLocation := currentLocation s;
  previewImage := Some fullBase64
|}.

Definition upload_identified (s : AppState) (fullBase64 : string) (info : MountainInfo) : AppState := {|
  activeTab := scanner;
  landmark := Some info;
  village := village s;
  loading := false;
  weatherData := weatherData s;
  currentAltitude := currentAltitude s;
  currentLocation := currentLocation s;
  previewImage := Some fullBase64
|}.

Definition position_stored (s : AppState) (c : Coords) : AppState := {|
  activeTab := activeTab s;
  landmark := landmark s;
  village := village s;
  loading := loading s;
  weatherData := weatherData s;
  currentAltitude :=
    match coords_altitude c with
    | Some a => Some (Math_round a)
    | None => currentAltitude s
    end;
  currentLocation := {| loc_lat := latitude c; loc_lng := longitude c |};
  previewImage := previewImage s
|}.

Definition village_loaded (s : AppState) (v : option VillageInfo) : AppState := {|
  activeTab := activeTab s;
  landmark := landmark s;
  village := v;
  loading := false;
  weatherData := weatherData s;
  currentAltitude := currentAltitude s;
  currentLocation := currentLocation s;
  previewImage := previewImage s
|}.

(** Two worlds that differ at most in the cameras of the maps. *)
Definition only_camera_changed (w w' : World) : Prop :=
  app w' = app w
  /\ trace w' = trace w
  /\ geolocation w' = geolocation w
  /\ refs w' = refs w
  /\ objects (leaflet w') = objects (leaflet w)
  /\ map camera_blind (maps (leaflet w')) = map camera_blind (maps (leaflet w)).

(** What the first render of a view leaves in the widget and in the refs. *)
Definition rendered_map (el : nat) (lat lng : float) (trail : list TrekPoint)
    (first_layer : nat) : LMap :=
  {| container := el; zoomControl := false; attributionControl := false;
     camera := [SetView (latLng lat lng) 13;
                FitBounds (bounds_of (map waypoint_latLng trail)) (50, 50)%float];
     layers := seq first_layer (3 + length trail) |}.

Definition rendered_layers (lat lng : float) (trail : list TrekPoint) : list Layer :=
  [TileLayer imagery_url 19;
   Marker (latLng lat lng) userIcon (Some 1000%float);
   Polyline (map waypoint_latLng trail) trailStyle]
  ++ map waypoint_marker trail.

Definition rendered_refs (el : nat) (w : World) : ViewRefs :=
  {| mapRef := Some el;
     leafletMap := Some (length (maps (leaflet w)));
     userMarker := Some (length (objects (leaflet w)) + 1)%nat;
     trailLayer := Some (length (objects (leaflet w)) + 2)%nat |}.

(** ** Vocabulary of the further statements *)

(** A string without a comma. *)
Fixpoint comma_free (s : string) : bool :=
  match s with
  | EmptyString => true
  | String c rest => negb (Ascii.eqb c comma) && comma_free rest
  end.

(** [pieces.join(",")]. *)
Definition join_comma (pieces : list string) : string :=
  String.concat (String comma EmptyString) pieces.

(** Recognisers of recorded calls: a service call, and a request to the
    geolocation service. *)
Definition is_Call (ev : Event) : bool :=
  match ev with
  | Call _ => true
  | _ => false
  end.

Definition is_geolocation_request (ev : Event) : bool :=
  match ev with
  | GetCurrentPosition | WatchPosition _ | ClearWatch _ => true
  | _ => false
  end.

(** The result card: shown on the scanner tab when a landmark is stored,
    with [previewImage || "https://..."] as its picture. *)
Definition default_scan_image : string :=
  "https://images.unsplash.com/photo-1582294109312-70131ed26a45?q=80&w=800".

Definition scanner_card (s : AppState) : option (string * MountainInfo) :=
  match activeTab s, landmark s with
  | scanner, Some l =>
      Some (match previewImage s with
            | Some (String c rest) => String c rest
            | _ => default_scan_image
            end, l)
  | _, _ => None
  end.

(** Whether the page shows a file input: the card of the home tab has one,
    the scanner tab has one while no landmark is stored, the other tabs
    have none. *)
Definition file_input_shown (s : AppState) : bool :=
  match activeTab s, landmark s with
  | home, _ => true
  | scanner, None => true
  | _, _ => false
  end.

(** The shell events that leave the loading flag alone: everything but the
    mount (which loads the village) and an upload whose file is read. *)
Definition leaves_loading {File : Type} (readAsDataURL : File -> option string)
    (ev : ShellEvent File) : bool :=
  match ev with
  | Mounted _ => false
  | FileChosen _ files =>
      match files ≫= (fun fs => array_get fs 0) with
      | Some file =>
          match readAsDataURL file with
          | Some _ => false
          | None => true
          end
      | None => true
      end
  | _ => true
  end.

(** One life of the map view: mount on an element, the first render, the
    later live locations; and several such lives, one after the other (the
    tab is left and entered again). *)
Record Lifetime : Type := {
  lt_element : nat;
  lt_first : float * float;
  lt_updates : list (float * float);
  lt_trail : list TrekPoint
}.

Definition view_lifetime (l : Lifetime) : M unit :=
  mount_view (Some (lt_element l));;
  SatelliteMapView_effect (fst (lt_first l)) (snd (lt_first l)) (lt_trail l);;
  live_updates (lt_updates l) (lt_trail l).

Fixpoint view_lifetimes (ls : list Lifetime) : M unit :=
  match ls with
  | [] => mret tt
  | l :: rest => view_lifetime l;; view_lifetimes rest
  end.

(** A service that identifies one picture and no other, and two files. *)
Definition other_picture : string := "data:image/jpeg;base64,/9j/4AAQSkZJRg==".

Definition knows_one_picture : option string -> JsError + MountainInfo :=
  fun d =>
    match d with
    | Some payload =>
        if String.eqb payload "iVBORw0KGgo=" then inr poon_hill
        else inl (ServiceError "Could not identify landmark")
    | None => inl (ServiceError "Could not identify landmark")
    end.

Definition read_two_pictures : bool -> option string :=
  fun first => Some (if first then picture else other_picture).

Definition search_ok : string -> JsError + SearchResult :=
  fun _ => inr {| text := "Clear skies over Myagdi" |}.

(** The weather record [loadVillageData] builds from a search result. *)
Definition weather_of (found : SearchResult) : WeatherData :=
  {| temp := 16;
     desc := String.app (String.substring 0 100 (text found)) "..." |}.

(** Where the stored values of a state come from: the landmark from the
    identification service, the preview from a file that was read, the
    village and the weather from the two startup fetches; and there is no
    weather without a village. *)
Definition from_collaborators {File : Type}
    (readAsDataURL : File -> option string)
    (identifyLandmark : option string -> JsError + MountainInfo)
    (getVillageInsights : string -> JsError + VillageInfo)
    (getSearchInfo : string -> JsError + SearchResult)
    (s : AppState) : Prop :=
  (forall info, landmark s = Some info ->
     exists base64Data, identifyLandmark base64Data = inr info)
  /\ (forall p, previewImage s = Some p ->
        exists file, readAsDataURL file = Some p)
  /\ (forall data, village s = Some data ->
        getVillageInsights "Takam Village, Myagdi" = inr data)
  /\ (forall d, weatherData s = Some d ->
        village s <> None
        /\ exists found, getSearchInfo weather_query = inr found /\ d = weather_of found).

(** What one life of the view leaves in the world. *)
Definition after_lifetime (l : Lifetime) (w : World) : World :=
  {| app := app w; trace := trace w; geolocation := geolocation w;
     refs := rendered_refs (lt_element l) w;
     leaflet :=
       {| maps := maps (leaflet w)
                  ++ [rendered_map (lt_element l) (fst (lt_first l)) (snd (lt_first l))
                        (lt_trail l) (length (objects (leaflet w)))];
          objects :=
            objects (leaflet w) ++
            [TileLayer imagery_url 19;
             Marker (last_position (lt_first l) (lt_updates l)) userIcon (Some 1000%float);
             Polyline (map waypoint_latLng (lt_trail l)) trailStyle]
            ++ map waypoint_marker (lt_trail l) |} |}.

(** The refs of a view that is not mounted, or mounted without an element. *)
Definition no_refs : ViewRefs :=
  {| mapRef := None; leafletMap := None; userMarker := None; trailLayer := None |}.

(** ** Proof tools *)

(** Unfolds the monad of a handler applied to a world. *)
Ltac run_handler :=
  unfold exec, outcome;
  repeat (unfold mbind, M_bind, mret, M_ret, mthrow, M_throw, modify,
            try_catch_finally, await; simpl).

(** Brings a world built by the widget's operations into record form. *)
Ltac tidy := unfold with_leaflet, with_refs, with_layer, with_camera; simpl.

(** * Facts *)

(** ** Strings and decimal digits *)

Lemma append_cons (c : ascii) (s t : string) :
  String.app (String c s) t = String c (String.app s t).
Proof. reflexivity. Qed.

Lemma append_empty (s : string) : String.app s EmptyString = s.
Proof.
  induction s as [|c s IH]; [reflexivity|]. rewrite append_cons, IH. reflexivity.
Qed.

Lemma length_append (s t : string) :
  String.length (String.app s t) = (String.length s + String.length t)%nat.
Proof.
  induction s as [|c s IH]; [reflexivity|]. rewrite append_cons. simpl.
  rewrite IH. reflexivity.
Qed.

Lemma append_assoc (s t u : string) :
  String.app (String.app s t) u = String.app s (String.app t u).
Proof.
  induction s as [|c s IH]; [reflexivity|]. rewrite !append_cons, IH. reflexivity.
Qed.

Lemma string_of_uint_revapp (l acc : Decimal.uint) :
  NilEmpty.string_of_uint (Decimal.revapp l acc) =
  String.app (NilEmpty.string_of_uint (Decimal.revapp l Decimal.Nil))
             (NilEmpty.string_of_uint acc).
Proof.
  revert acc. induction l as [|l IH|l IH|l IH|l IH|l IH|l IH|l IH|l IH|l IH|l IH];
    intros acc; [reflexivity| ..];
    simpl Decimal.revapp; rewrite IH; symmetry; rewrite IH, append_assoc; reflexivity.
Qed.

Lemma to_lu_digit (p : positive) (r : N) :
  (r < 10)%N ->
  exists d : Decimal.uint -> Decimal.uint,
    DecimalPos.Unsigned.to_lu (10 * N.pos p + r) = d (DecimalPos.Unsigned.to_lu (N.pos p))
    /\ (forall l, NilEmpty.string_of_uint (d l)
                  = String (digit (Z.of_N r)) (NilEmpty.string_of_uint l))
    /\ (forall l acc, Decimal.revapp (d l) acc = Decimal.revapp l (d acc)).
Proof.
  intros Hr.
  assert (Hcases : (r = 0 \/ r = 1 \/ r = 2 \/ r = 3 \/ r = 4 \/ r = 5 \/ r = 6
                    \/ r = 7 \/ r = 8 \/ r = 9)%N) by lia.
  pose proof (DecimalPos.Unsigned.to_ldec_tenfold p) as Hten.
  assert (Hsucc : forall n, (n + 1 = N.succ n)%N) by (intros; lia).
  destruct Hcases as [-> | [-> | [-> | [-> | [-> | [-> | [-> | [-> | [-> | ->]]]]]]]]].
  - exists Decimal.D0. rewrite N.add_0_r, Hten. repeat split.
  - exists Decimal.D1. rewrite Hsucc, DecimalPos.Unsigned.to_lu_succ, Hten. repeat split.
  - exists Decimal.D2.
    replace (10 * N.pos p + 2)%N with (N.succ (N.succ (10 * N.pos p))) by lia.
    rewrite !DecimalPos.Unsigned.to_lu_succ, Hten. repeat split.
  - exists Decimal.D3.
    replace (10 * N.pos p + 3)%N with (N.succ (N.succ (N.succ (10 * N.pos p)))) by lia.
    rewrite !DecimalPos.Unsigned.to_lu_succ, Hten. repeat split.
  - exists Decimal.D4.
    replace (10 * N.pos p + 4)%N
      with (N.succ (N.succ (N.succ (N.succ (10 * N.pos p))))) by lia.
    rewrite !DecimalPos.Unsigned.to_lu_succ, Hten. repeat split.
  - exists Decimal.D5.
    replace (10 * N.pos p + 5)%N
      with (N.succ (N.succ (N.succ (N.succ (N.succ (10 * N.pos p)))))) by lia.
    rewrite !DecimalPos.Unsigned.to_lu_succ, Hten. repeat split.
  - exists Decimal.D6.
    replace (10 * N.pos p + 6)%N
      with (N.succ (N.succ (N.succ (N.succ (N.succ (N.succ (10 * N.pos p))))))) by lia.
    rewrite !DecimalPos.Unsigned.to_lu_succ, Hten. repeat split.
  - exists Decimal.D7.
    replace (10 * N.pos p + 7)%N
      with (N.succ (N.succ (N.succ (N.succ (N.succ (N.succ (N.succ (10 * N.pos p))))))))
      by lia.
    rewrite !DecimalPos.Unsigned.to_lu_succ, Hten. repeat split.
  - exists Decimal.D8.
    replace (10 * N.pos p + 8)%N
      with (N.succ (N.succ (N.succ (N.succ (N.succ (N.succ (N.succ (N.succ
             (10 * N.pos p))))))))) by lia.
    rewrite !DecimalPos.Unsigned.to_lu_succ, Hten. repeat split.
  - exists Decimal.D9.
    replace (10 * N.pos p + 9)%N
      with (N.succ (N.succ (N.succ (N.succ (N.succ (N.succ (N.succ (N.succ (N.succ
             (10 * N.pos p)))))))))) by lia.
    rewrite !DecimalPos.Unsigned.to_lu_succ, Hten. repeat split.
Qed.

Lemma digits_step (n : Z) :
  10 <= n ->
  digits n = String.app (digits (n / 10)) (String (digit (n mod 10)) EmptyString).
Proof.
  intros Hn. unfold digits.
  pose proof (Z.div_mod n 10 ltac:(lia)) as Hdiv.
  pose proof (Z.mod_pos_bound n 10 ltac:(lia)) as Hmod.
  assert (Hq : 0 < n / 10) by (apply Z.div_str_pos; lia).
  destruct (Z.to_N (n / 10)) as [|p] eqn:Hp; [lia|].
  assert (HN : Z.to_N n = (10 * N.pos p + Z.to_N (n mod 10))%N) by lia.
  destruct (to_lu_digit p (Z.to_N (n mod 10)) ltac:(lia)) as (d & Hd & Hstring & Hrev).
  rewrite HN.
  destruct (10 * N.pos p + Z.to_N (n mod 10))%N as [|k] eqn:Hk; [lia|].
  simpl N.to_uint. unfold Pos.to_uint.
  change (Pos.to_little_uint k) with (DecimalPos.Unsigned.to_lu (N.pos k)).
  change (Pos.to_little_uint p) with (DecimalPos.Unsigned.to_lu (N.pos p)).
  rewrite Hd. unfold Decimal.rev. rewrite Hrev, string_of_uint_revapp, Hstring.
  rewrite Z2N.id by lia. reflexivity.
Qed.

Lemma digits_small (n : Z) :
  0 <= n < 10 -> digits n = String (digit n) EmptyString.
Proof.
  intros Hn.
  assert (Hnat : exists k : nat, (k < 10)%nat /\ n = Z.of_nat k)
    by (exists (Z.to_nat n); lia).
  destruct Hnat as (k & Hk & ->).
  do 10 (destruct k as [|k]; [reflexivity|]). lia.
Qed.

Lemma digits_not_empty (n : Z) : 0 <= n -> (1 <= String.length (digits n))%nat.
Proof.
  intros Hn. destruct (Z_lt_dec n 10) as [Hsmall | Hbig].
  - rewrite digits_small by lia. simpl. lia.
  - rewrite digits_step by lia. rewrite length_append. simpl. lia.
Qed.

Lemma substring_whole (s : string) : String.substring 0 (String.length s) s = s.
Proof. induction s as [|c s IH]; [reflexivity|]. simpl. rewrite IH. reflexivity. Qed.

Lemma substring_append_l (s t : string) :
  String.substring 0 (String.length s) (String.app s t) = s.
Proof.
  induction s as [|c s IH]; [destruct t; reflexivity|].
  rewrite append_cons. simpl. rewrite IH. reflexivity.
Qed.

Lemma substring_append_r (s t : string) :
  String.substring (String.length s) (String.length t) (String.app s t) = t.
Proof.
  induction s as [|c s IH]; [apply substring_whole|].
  rewrite append_cons. simpl. exact IH.
Qed.

(** [toFixed]'s digits for two decimals are the hundredths written out. *)
Lemma fixed_digits_two_decimals (n : Z) :
  0 <= n -> fixed_digits n 2 = two_decimals n.
Proof.
  intros Hn. unfold fixed_digits, two_decimals. fold (digits n).
  pose proof (Z.mod_pos_bound n 10 ltac:(lia)) as Hmod.
  destruct (Z_lt_dec n 10) as [H10 | H10].
  - (* one digit *)
    rewrite (digits_small n) by lia.
    rewrite Z.div_small by lia. rewrite (Z.div_small n 10) by lia.
    rewrite (Z.mod_small n 10) by lia. reflexivity.
  - rewrite (digits_step n) by lia.
    pose proof (Z.mod_pos_bound (n / 10) 10 ltac:(lia)) as Hmod1.
    assert (Hdd : n / 100 = n / 10 / 10) by (rewrite Z.div_div by lia; reflexivity).
    destruct (Z_lt_dec n 100) as [H100 | H100].
    + (* two digits *)
      assert (Hq : 0 <= n / 10 < 10).
      { split; [apply Z.div_pos; lia | apply Z.div_lt_upper_bound; lia]. }
      rewrite (digits_small (n / 10)) by lia.
      rewrite (Z.div_small n 100) by lia.
      rewrite (Z.mod_small (n / 10) 10) by lia. reflexivity.
    + (* three digits or more *)
      assert (Hq : 10 <= n / 10) by (apply Z.div_le_lower_bound; lia).
      rewrite (digits_step (n / 10)) by lia. rewrite <- Hdd.
      pose proof (digits_not_empty (n / 100) ltac:(apply Z.div_pos; lia)) as Hlen.
      set (whole := digits (n / 100)) in *.
      set (d1 := digit (n / 10 mod 10)). set (d0 := digit (n mod 10)).
      assert (Hm : String.app (String.app whole (String d1 EmptyString))
                     (String d0 EmptyString)
                   = String.app whole (String d1 (String d0 EmptyString)))
        by (rewrite append_assoc; reflexivity).
      rewrite Hm.
      assert (Hk : String.length (String.app whole (String d1 (String d0 EmptyString)))
                   = (String.length whole + 2)%nat)
        by (rewrite length_append; reflexivity).
      rewrite Hk.
      destruct (Nat.leb_spec (String.length whole + 2) 2) as [Hle|Hgt]; [lia|].
      rewrite Hk.
      replace (String.length whole + 2 - 2)%nat with (String.length whole) by lia.
      rewrite substring_append_l.
      change 2%nat with (String.length (String d1 (String d0 EmptyString))) at 1.
      rewrite substring_append_r. reflexivity.
Qed.

(** The integer [toFixed(2)] rounds to is the number of hundredths nearest
    to the size of the number. *)
Lemma nearest_scaled_hundredths (s : bool) (m : positive) (e : Z) :
  let magnitude := if 0 <=? e then inject_Z (Z.pos m * 2 ^ e)
                   else Qmake (Z.pos m) (Z.to_pos (2 ^ (- e))) in
  let v := if s then Qopp magnitude else magnitude in
  nearest_scaled m e 2 = nearest_hundredths v
  /\ 0 <= nearest_scaled m e 2
  /\ Qle_bool 0 v = negb s.
Proof.
  intros magnitude v.
  assert (Hpos : (0 < magnitude)%Q).
  { subst magnitude. destruct (Z.leb_spec 0 e) as [He|He].
    - assert (0 < 2 ^ e) by (apply Z.pow_pos_nonneg; lia).
      unfold Qlt. simpl. nia.
    - unfold Qlt. simpl. lia. }
  assert (Habs : (Qabs v == magnitude)%Q).
  { subst v. destruct s; [rewrite Qabs_opp|]; apply Qabs_pos, Qlt_le_weak, Hpos. }
  unfold nearest_hundredths. rewrite Habs. clear Habs.
  split; [| split].
  - subst magnitude. unfold nearest_scaled.
    change (10 ^ Z.of_nat 2) with 100.
    destruct (Z.leb_spec 0 e) as [He|He].
    + rewrite (Qfloor_comp _ (Qmake (2 * (Z.pos m * 100 * 2 ^ e) + 1) 2)).
      * simpl Qfloor. set (K := Z.pos m * 100 * 2 ^ e).
        pose proof (Z.div_mod (2 * K + 1) 2 ltac:(lia)) as Hdiv.
        pose proof (Z.mod_pos_bound (2 * K + 1) 2 ltac:(lia)) as Hmod.
        change (Z.pos 2) with 2. lia.
      * unfold Qeq, Qmult, Qplus, inject_Z. simpl. lia.
    + assert (HP : 0 < 2 ^ (- e)) by (apply Z.pow_pos_nonneg; lia).
      replace (1 - e) with (Z.succ (- e)) by lia. rewrite Z.pow_succ_r by lia.
      set (P := 2 ^ (- e)) in *.
      rewrite (Qfloor_comp _ (Qmake (2 * (Z.pos m * 100) + P) (Z.to_pos (2 * P)))).
      * simpl Qfloor. rewrite Z2Pos.id by lia. reflexivity.
      * unfold Qeq, Qmult, Qplus. simpl.
        rewrite !Pos2Z.inj_mul, !Z2Pos.id by lia. lia.
  - unfold nearest_scaled. destruct (Z.leb_spec 0 e) as [He|He].
    + apply Z.mul_nonneg_nonneg; [lia | apply Z.pow_nonneg; lia].
    + apply Z.div_pos; [| apply Z.pow_pos_nonneg; lia].
      assert (0 <= 2 ^ (- e)) by (apply Z.pow_nonneg; lia). lia.
  - subst v. unfold Qlt in Hpos. simpl in Hpos. rewrite Z.mul_1_r in Hpos.
    destruct s; unfold Qle_bool; simpl; rewrite Z.mul_1_r.
    + apply Z.leb_gt. lia.
    + apply Z.leb_le. lia.
Qed.

(** ** Geodesy helper *)

Section GeodesyFacts.

Variable Number_toString : float -> string.
Variable distanceTo : LatLng -> LatLng -> float.

Lemma array_get_Some {A : Type} (arr : list A) (i : Z) (x : A) :
  array_get arr i = Some x -> 0 <= i /\ arr !! Z.to_nat i = Some x.
Proof.
  unfold array_get. destruct (Z.ltb_spec i 0); [discriminate | auto].
Qed.

Lemma array_get_None {A : Type} (arr : list A) (i : Z) :
  array_get arr i = None -> i < 0 \/ Z.of_nat (length arr) <= i.
Proof.
  unfold array_get. destruct (Z.ltb_spec i 0); [auto | intros Hnone].
  apply lookup_ge_None in Hnone. right. lia.
Qed.

Lemma consecutive_pairs_short (points : list TrekPoint) :
  (length points <= 1)%nat -> consecutive_pairs points = [].
Proof.
  destruct points as [|a [|b rest]]; simpl; intros; try reflexivity; lia.
Qed.

(** From any index on, the loop adds the legs of the rest of the sequence to
    the running total, in order, and never reads outside the array. *)
Lemma distance_loop_sum (points : list TrekPoint) (i : Z) (total : float) :
  0 <= i ->
  distance_loop distanceTo points i total =
  inr (fold_left (add_leg distanceTo)
         (consecutive_pairs (drop (Z.to_nat i) points)) total).
Proof.
  funelim (distance_loop distanceTo points i total); intros Hi;
    repeat match goal with
           | E : array_get _ _ = Some _ |- _ => apply array_get_Some in E; destruct E
           | E : array_get _ _ = None |- _ => apply array_get_None in E
           end;
    try lia.
  - (* the loop has ended: at most one point is left *)
    rewrite consecutive_pairs_short; [reflexivity|].
    rewrite length_drop. lia.
  - (* one more leg *)
    match goal with
    | IH : _ -> distance_loop _ _ _ _ = _ |- _ => rewrite IH by lia
    end.
    replace (Z.to_nat (i + 1)) with (S (Z.to_nat i)) in * by lia.
    match goal with
    | Ea : points !! Z.to_nat i = Some ?a, Eb : points !! S (Z.to_nat i) = Some ?b |- _ =>
        rewrite (drop_S _ _ _ Ea), (drop_S _ _ _ Eb)
    end.
    reflexivity.
Qed.

(** When the number is finite and below 10^21 in size, [toFixed(2)] writes
    its value to two decimal places. *)
Lemma toFixed_two_decimals (x : float) (v : Q) :
  float_value x = Some v ->
  (1e21 <=? abs x)%float = false ->
  toFixed Number_toString x 2 = kilometres_label v.
Proof.
  unfold float_value, toFixed. intros Hv Hsmall.
  destruct (Prim2SF x) as [s0 | s0 | | s m e]; try discriminate.
  - injection Hv as <-. reflexivity.
  - injection Hv as <-. rewrite Hsmall.
    destruct (nearest_scaled_hundredths s m e) as (Hn & Hnonneg & Hsign).
    simpl in Hn, Hsign. unfold kilometres_label.
    rewrite Hsign, <- Hn, fixed_digits_two_decimals by exact Hnonneg.
    destruct s; reflexivity.
Qed.

(** C1. For a sequence of at least two waypoints none of whose coordinates
    is NaN, [calculateTotalDistance] returns (it does not throw): its loop
    adds up, in order, the distances of the consecutive pairs, as Leaflet's
    [distanceTo] gives them in metres; the sum is divided by 1000 and
    formatted by [toFixed(2)]; and when that quotient is a finite number
    below 10^21 in size, the string returned is its value in kilometres to
    two decimal places: a minus sign if it is negative, then the nearest
    number of hundredths (the larger one on a tie) written with a point
    before its last two digits.  For a sequence of no or one waypoint it
    returns exactly 0.00. *)
Theorem calculateTotalDistance_sums_consecutive_legs (points : list TrekPoint) :
  ((2 <= length points)%nat ->
   Forall (fun p => is_nan (lat p) = false /\ is_nan (lng p) = false) points ->
   let metres := pairwise_distance_sum distanceTo points in
   distance_loop distanceTo points 0 0%float = inr metres
   /\ calculateTotalDistance Number_toString distanceTo points =
      inr (toFixed Number_toString (metres / 1000)%float 2)
   /\ (forall km : Q,
         float_value (metres / 1000)%float = Some km ->
         (1e21 <=? abs (metres / 1000))%float = false ->
         calculateTotalDistance Number_toString distanceTo points =
         inr (kilometres_label km))) /\
  ((length points <= 1)%nat ->
   calculateTotalDistance Number_toString distanceTo points = inr "0.00").
Proof.
  assert (Hloop : distance_loop distanceTo points 0 0%float =
                  inr (pairwise_distance_sum distanceTo points)).
  { rewrite distance_loop_sum by lia. reflexivity. }
  unfold calculateTotalDistance. rewrite Hloop. split.
  - intros _ _. cbv zeta. split; [reflexivity|]. split; [reflexivity|].
    intros km Hkm Hsmall. rewrite (toFixed_two_decimals _ km Hkm Hsmall). reflexivity.
  - intros Hlen. unfold pairwise_distance_sum.
    rewrite consecutive_pairs_short by exact Hlen. reflexivity.
Qed.

End GeodesyFacts.

(** C1 on the fixed trail, with the great-circle lengths of its legs, and
    on its first point alone. *)
Lemma calculateTotalDistance_on_the_trail :
  calculateTotalDistance no_toString great_circle_on_trail MOCK_TREK_DATA = inr "73.42"
  /\ calculateTotalDistance no_toString great_circle_on_trail (take 1 MOCK_TREK_DATA)
     = inr "0.00".
Proof.
  split.
  - destruct (proj1 (calculateTotalDistance_sums_consecutive_legs
                       no_toString great_circle_on_trail MOCK_TREK_DATA)
                ltac:(simpl; lia) ltac:(repeat constructor))
      as (_ & _ & Hlabel).
    destruct (float_value
                (pairwise_distance_sum great_circle_on_trail MOCK_TREK_DATA / 1000)%float)
      as [km|] eqn:Hkm; [| vm_compute in Hkm; discriminate].
    rewrite (Hlabel km eq_refl eq_refl).
    vm_compute in Hkm. injection Hkm as <-. vm_compute. reflexivity.
  - apply (proj2 (calculateTotalDistance_sums_consecutive_legs
                    no_toString great_circle_on_trail (take 1 MOCK_TREK_DATA))).
    simpl. lia.
Defined.

(** The fixed trail, on the flat stand-in distance. *)
Example calculateTotalDistance_example :
  calculateTotalDistance no_toString flat_distance MOCK_TREK_DATA = inr "80.60".
Proof. vm_compute. reflexivity. Qed.

(** ** Image upload *)

Section UploadFacts.

Variable File : Type.
Variable readAsDataURL : File -> option string.
Variable identifyLandmark : option string -> JsError + MountainInfo.

Local Abbreviation upload := (handleFileUpload File readAsDataURL identifyLandmark).

(** The whole run of an upload whose file is read: what is recorded, and the
    state it leaves, for either way the identification call settles. *)
Lemma upload_run (w : World) (files : list File) (file : File) (fullBase64 : string) :
  array_get files 0 = Some file ->
  readAsDataURL file = Some fullBase64 ->
  let base64Data := array_get (split_on comma fullBase64) 1 in
  let w' := exec (upload (Some files)) w in
  trace w' =
    trace w ++ [SetLoading true; SetPreviewImage (Some fullBase64);
                Call (identifyLandmark_call base64Data);
                Settled (identifyLandmark_call base64Data)]
            ++ reaction (identifyLandmark base64Data) ++ [SetLoading false]
  /\ app w' =
       match identifyLandmark base64Data with
       | inr info => upload_identified (app w) fullBase64 info
       | inl _ => upload_failed (app w) fullBase64
       end
  /\ geolocation w' = geolocation w /\ refs w' = refs w /\ leaflet w' = leaflet w.
Proof.
  intros Hfile Hread base64Data w'. subst w'.
  unfold exec, handleFileUpload. simpl. rewrite Hfile, Hread.
  unfold reader_onload, try_catch_finally, await. simpl.
  fold base64Data. destruct (identifyLandmark base64Data) as [err|info]; simpl;
    rewrite <- !app_assoc; simpl; repeat split; reflexivity.
Qed.

(** C2, amended. When the identification call of an upload fails, the alert
    is shown, the stored landmark and the active tab stay as they were, the
    preview image is the uploaded picture, the loading flag ends false, and
    nothing else of the state, the platform or the map changes. *)
Theorem upload_failure_keeps_landmark_and_tab
    (w : World) (files : list File) (file : File) (fullBase64 : string) (err : JsError) :
  array_get files 0 = Some file ->
  readAsDataURL file = Some fullBase64 ->
  identifyLandmark (array_get (split_on comma fullBase64) 1) = inl err ->
  let w' := exec (upload (Some files)) w in
  occurrences is_Alert (drop (length (trace w)) (trace w')) = 1%nat
  /\ Alert failure_message ∈ trace w'
  /\ landmark (app w') = landmark (app w)
  /\ activeTab (app w') = activeTab (app w)
  /\ app w' = upload_failed (app w) fullBase64
  /\ geolocation w' = geolocation w /\ refs w' = refs w /\ leaflet w' = leaflet w.
Proof.
  intros Hfile Hread Hfail w'.
  destruct (upload_run w files file fullBase64 Hfile Hread)
    as (Htrace & Happ & Hgeo & Hrefs & Hleaflet).
  fold w' in Htrace, Happ, Hgeo, Hrefs, Hleaflet.
  rewrite Hfail in Htrace, Happ. simpl in Htrace.
  rewrite Htrace, Happ. repeat split; try assumption.
  - rewrite drop_app_length. reflexivity.
  - set_solver.
Qed.

(** C3. When the identification call of an upload succeeds, the active tab
    is the scanner tab and the stored landmark is the value the service
    returned, field for field. *)
Theorem upload_success_shows_landmark
    (w : World) (files : list File) (file : File) (fullBase64 : string) (info : MountainInfo) :
  array_get files 0 = Some file ->
  readAsDataURL file = Some fullBase64 ->
  identifyLandmark (array_get (split_on comma fullBase64) 1) = inr info ->
  let w' := exec (upload (Some files)) w in
  activeTab (app w') = scanner
  /\ landmark (app w') = Some info
  /\ app w' = upload_identified (app w) fullBase64 info.
Proof.
  intros Hfile Hread Hok w'.
  destruct (upload_run w files file fullBase64 Hfile Hread) as (_ & Happ & _).
  fold w' in Happ. rewrite Hok in Happ. rewrite Happ. repeat split.
Qed.

(** C4. In an upload, [setLoading(true)] is recorded before the
    identification call begins, and [setLoading(false)] is recorded exactly
    once, last, after the call has settled, whichever way it settles; the
    flag is then false. *)
Theorem upload_sets_then_clears_loading
    (w : World) (files : list File) (file : File) (fullBase64 : string) :
  array_get files 0 = Some file ->
  readAsDataURL file = Some fullBase64 ->
  let call := identifyLandmark_call (array_get (split_on comma fullBase64) 1) in
  let result := identifyLandmark (array_get (split_on comma fullBase64) 1) in
  let w' := exec (upload (Some files)) w in
  let recorded := drop (length (trace w)) (trace w') in
  recorded = [SetLoading true; SetPreviewImage (Some fullBase64); Call call; Settled call]
               ++ reaction result ++ [SetLoading false]
  /\ occurrences (is_SetLoading false) recorded = 1%nat
  /\ occurrences (is_SetLoading false) (reaction result) = 0%nat
  /\ loading (app w') = false.
Proof.
  intros Hfile Hread call result w' recorded.
  destruct (upload_run w files file fullBase64 Hfile Hread) as (Htrace & Happ & _).
  fold w' in Htrace, Happ. fold result in Htrace, Happ. fold call in Htrace.
  assert (Hrec : recorded = [SetLoading true; SetPreviewImage (Some fullBase64);
                             Call call; Settled call]
                            ++ reaction result ++ [SetLoading false]).
  { subst recorded. rewrite Htrace, drop_app_length. reflexivity. }
  rewrite Hrec, Happ. destruct result; repeat split.
Qed.

End UploadFacts.

(** C2 as stated fails: an upload whose identification call fails, on a
    freshly loaded page, leaves the uploaded picture in the preview image,
    which held nothing before. *)
Lemma upload_failure_replaces_preview :
  let w := start None in
  let w' := exec (handleFileUpload unit read_picture unclassifiable (Some [tt])) w in
  unclassifiable (array_get (split_on comma picture) 1)
    = inl (ServiceError "Could not identify landmark")
  /\ Alert failure_message ∈ trace w'
  /\ previewImage (app w) = None
  /\ previewImage (app w') = Some picture
  /\ app w' <> app w.
Proof.
  repeat split.
  - vm_compute. set_solver.
  - intros Heq. apply (f_equal previewImage) in Heq. vm_compute in Heq. discriminate.
Qed.

(** The uploads of C2, C3 and C4 on a freshly loaded page. *)
Lemma upload_failure_on_fresh_page :
  let w' := exec (handleFileUpload unit read_picture unclassifiable (Some [tt])) (start None) in
  landmark (app w') = None /\ activeTab (app w') = home
  /\ app w' = upload_failed initial_state picture.
Proof.
  destruct (upload_failure_keeps_landmark_and_tab unit read_picture unclassifiable
              (start None) [tt] tt picture (ServiceError "Could not identify landmark")
              eq_refl eq_refl eq_refl)
    as (_ & _ & Hlandmark & Htab & Happ & _).
  repeat split; assumption.
Defined.

Lemma upload_success_on_fresh_page :
  let w' := exec (handleFileUpload unit read_picture classifies (Some [tt])) (start None) in
  activeTab (app w') = scanner /\ landmark (app w') = Some poon_hill.
Proof.
  destruct (upload_success_shows_landmark unit read_picture classifies
              (start None) [tt] tt picture poon_hill eq_refl eq_refl eq_refl)
    as (Htab & Hlandmark & _).
  split; assumption.
Defined.

Lemma upload_loading_on_fresh_page :
  let w' := exec (handleFileUpload unit read_picture unclassifiable (Some [tt])) (start None) in
  occurrences (is_SetLoading false) (trace w') = 1%nat /\ loading (app w') = false.
Proof.
  destruct (upload_sets_then_clears_loading unit read_picture unclassifiable
              (start None) [tt] tt picture eq_refl eq_refl)
    as (_ & Honce & _ & Hflag).
  split; assumption.
Defined.

(** ** Startup fetches *)

Section StartupFacts.

Variable getVillageInsights : string -> JsError + VillageInfo.
Variable getSearchInfo : string -> JsError + SearchResult.

Local Abbreviation load := (loadVillageData getVillageInsights getSearchInfo).

(** The whole run of [loadVillageData], by how the two fetches settle. *)
Lemma load_run (w : World) (name : string) :
  let w' := exec (load name) w in
  let insight := getVillageInsights_call name in
  let search := getSearchInfo_call weather_query in
  geolocation w' = geolocation w /\ refs w' = refs w /\ leaflet w' = leaflet w /\
  match getVillageInsights name, getSearchInfo weather_query with
  | inl err, _ =>
      trace w' = trace w ++ [SetLoading true; Call insight; Settled insight;
                             ConsoleError err; SetLoading false]
      /\ app w' = village_loaded (app w) (village (app w))
  | inr data, inl err =>
      trace w' = trace w ++ [SetLoading true; Call insight; Settled insight;
                             SetVillage (Some data); Call search; Settled search;
                             ConsoleError err; SetLoading false]
      /\ app w' = village_loaded (app w) (Some data)
  | inr data, inr found =>
      let weather := Some {| temp := 16;
                             desc := String.app (String.substring 0 100 (text found)) "..." |} in
      trace w' = trace w ++ [SetLoading true; Call insight; Settled insight;
                             SetVillage (Some data); Call search; Settled search;
                             SetWeatherData weather; SetLoading false]
      /\ weatherData (app w') = weather /\ village (app w') = Some data
      /\ loading (app w') = false
  end.
Proof.
  intros w' insight search. subst w'.
  unfold exec, loadVillageData, try_catch_finally, await. simpl.
  fold weather_query.
  destruct (getVillageInsights name) as [err|data]; simpl.
  - rewrite <- !app_assoc. repeat split.
  - destruct (getSearchInfo weather_query) as [err|found]; simpl;
      rewrite <- !app_assoc; repeat split.
Qed.

(** C9, amended. When the village-insight fetch fails, the village and the
    weather state are left as they were; when it succeeds and the weather
    search fails, the weather state is left as it was and the village state
    holds the fetched insight.  Either way the error goes to the console
    only: no alert is shown, and the loading flag ends false. *)
Theorem startup_fetch_failure_is_logged_only (w : World) (name : string) (err : JsError) :
  let w' := exec (load name) w in
  let recorded := drop (length (trace w)) (trace w') in
  (getVillageInsights name = inl err ->
   app w' = village_loaded (app w) (village (app w))
   /\ village (app w') = village (app w)
   /\ weatherData (app w') = weatherData (app w)
   /\ ConsoleError err ∈ recorded
   /\ occurrences is_Alert recorded = 0%nat)
  /\
  (forall data : VillageInfo,
   getVillageInsights name = inr data ->
   getSearchInfo weather_query = inl err ->
   app w' = village_loaded (app w) (Some data)
   /\ village (app w') = Some data
   /\ weatherData (app w') = weatherData (app w)
   /\ ConsoleError err ∈ recorded
   /\ occurrences is_Alert recorded = 0%nat).
Proof.
  intros w' recorded. pose proof (load_run w name) as Hrun.
  fold w' in Hrun. simpl in Hrun. destruct Hrun as (_ & _ & _ & Hrun).
  split.
  - intros Hfail. rewrite Hfail in Hrun. destruct Hrun as [Htrace Happ].
    subst recorded. rewrite Htrace, Happ, drop_app_length.
    repeat split. set_solver.
  - intros data Hok Hfail. rewrite Hok, Hfail in Hrun. destruct Hrun as [Htrace Happ].
    subst recorded. rewrite Htrace, Happ, drop_app_length.
    repeat split. set_solver.
Qed.

End StartupFacts.

(** C9 as stated fails: on a freshly loaded page, when the insight fetch
    succeeds and the weather search fails, the village state is no longer
    absent. *)
Lemma weather_failure_keeps_fetched_village :
  let w' := exec (loadVillageData insight_ok search_down "Takam Village, Myagdi") (start None) in
  search_down weather_query = inl (ServiceError "network")
  /\ village (app (start None)) = None
  /\ village (app w') = Some takam
  /\ village (app w') <> None.
Proof.
  repeat split. vm_compute. discriminate.
Qed.

(** C9, amended, on a freshly loaded page: each of the two failures. *)
Lemma startup_failures_on_fresh_page :
  village (app (exec (loadVillageData insight_down search_down "Takam Village, Myagdi")
                  (start None))) = None
  /\ weatherData (app (exec (loadVillageData insight_ok search_down "Takam Village, Myagdi")
                         (start None))) = None.
Proof.
  split.
  - destruct (proj1 (startup_fetch_failure_is_logged_only insight_down search_down
                       (start None) "Takam Village, Myagdi" (ServiceError "network"))
                eq_refl)
      as (_ & Hvillage & _).
    exact Hvillage.
  - destruct (proj2 (startup_fetch_failure_is_logged_only insight_ok search_down
                       (start None) "Takam Village, Myagdi" (ServiceError "network"))
                takam eq_refl eq_refl)
      as (_ & _ & Hweather & _).
    exact Hweather.
Defined.

(** ** Live location *)

(** C8. A position delivered to the watch callback replaces the stored
    location by the reading's latitude and longitude; the stored altitude is
    replaced (by the rounded reading) only when the reading has an altitude;
    nothing else of the state changes.  The watch registered on mount is not
    active any more once the cleanup returned by the effect has run. *)
Theorem watch_update_and_teardown (w : World) (g : Geolocation) (position : Coords) :
  geolocation w = Some g ->
  (let w' := exec (watchPosition_success position) w in
   app w' = position_stored (app w) position
   /\ currentLocation (app w') =
        {| loc_lat := latitude position; loc_lng := longitude position |}
   /\ currentAltitude (app w') =
        match coords_altitude position with
        | Some a => Some (Math_round a)
        | None => currentAltitude (app w)
        end)
  /\
  (exists (cleanup : M unit) (w1 : World),
     App_effect_watch w = (inr (Some cleanup), w1)
     /\ (exists g1, geolocation w1 = Some g1 /\ next_watch g ∈ active_watches g1)
     /\ (forall w2 : World,
          geolocation w2 = geolocation w1 ->
          let w3 := exec (App_teardown (Some cleanup)) w2 in
          ClearWatch (next_watch g) ∈ trace w3
          /\ (exists g3, geolocation w3 = Some g3
                         /\ (next_watch g ∉ active_watches g3)
                         /\ active_watches g3 = active_watches g ∖ {[ next_watch g ]}))).
Proof.
  intros Hgeo. split.
  - unfold exec, watchPosition_success, position_stored. simpl.
    destruct (coords_altitude position); repeat split.
  - unfold App_effect_watch, navigator_geolocation, watchPosition.
    unfold mbind, M_bind, mret, M_ret, modify. rewrite Hgeo. eexists _, _. split; [reflexivity|]. simpl. split.
    + eexists. split; [reflexivity|]. simpl. set_solver.
    + intros w2 Hw2. unfold exec, App_teardown, clearWatch, modify. simpl.
      rewrite Hw2. simpl. split; [set_solver|].
      eexists. split; [reflexivity|]. simpl. split; set_solver.
Qed.

(** C8 on a freshly loaded page: a reading without altitude. *)
Lemma watch_update_on_fresh_page :
  currentLocation (app (exec (watchPosition_success
                                {| latitude := 28.5; longitude := 83.25;
                                   coords_altitude := None |})
                          (start (Some {| next_watch := 0; active_watches := ∅ |}))))
  = {| loc_lat := 28.5; loc_lng := 83.25 |}.
Proof.
  destruct (proj1 (watch_update_and_teardown
                     (start (Some {| next_watch := 0; active_watches := ∅ |}))
                     {| next_watch := 0; active_watches := ∅ |}
                     {| latitude := 28.5; longitude := 83.25; coords_altitude := None |}
                     eq_refl))
    as (_ & Hlocation & _).
  exact Hlocation.
Defined.

(** ** Rounding *)

Lemma digits2_pos_size (p : positive) : digits2_pos p = Pos.size p.
Proof. induction p; simpl; congruence. Qed.

Lemma digits2_pos_bound (p : positive) :
  2 ^ (Z.pos (digits2_pos p) - 1) <= Z.pos p < 2 ^ Z.pos (digits2_pos p).
Proof.
  rewrite digits2_pos_size. split.
  - pose proof (Pos.size_le p) as Hle.
    assert (H2 : (2 ^ Pos.size p)%positive = Z.to_pos (2 ^ Z.pos (Pos.size p))).
    { rewrite <- Pos2Z.inj_pow. reflexivity. }
    apply Pos2Z.pos_le_pos in Hle. rewrite Pos2Z.inj_pow in Hle.
    replace (Z.pos (Pos.size p)) with (Z.succ (Z.pos (Pos.size p) - 1)) in Hle by lia.
    rewrite Z.pow_succ_r in Hle by lia.
    change (Z.pos p~0) with (2 * Z.pos p) in Hle. lia.
  - pose proof (Pos.size_gt p) as Hgt.
    apply Pos2Z.pos_lt_pos in Hgt. rewrite Pos2Z.inj_pow in Hgt. exact Hgt.
Qed.

Lemma iter_xO_mul (p k : positive) : Z.pos (Pos.iter xO p k) = Z.pos p * 2 ^ Z.pos k.
Proof.
  induction k as [|k IH] using Pos.peano_ind.
  - simpl. lia.
  - rewrite Pos.iter_succ, Pos2Z.inj_succ, Z.pow_succ_r by lia.
    change (Z.pos (Pos.iter xO p k)~0) with (2 * Z.pos (Pos.iter xO p k)). lia.
Qed.

Lemma digits2_pos_iter_xO (p k : positive) :
  digits2_pos (Pos.iter xO p k) = (digits2_pos p + k)%positive.
Proof.
  induction k as [|k IH] using Pos.peano_ind.
  - simpl. lia.
  - rewrite Pos.iter_succ. simpl. rewrite IH. lia.
Qed.

(** A canonical mantissa and exponent go through rounding unchanged. *)
Lemma binary_round_aux_canonical (sx : bool) (mz : positive) (ez : Z) :
  canonical_mantissa prec emax mz ez = true ->
  ez <= emax - prec ->
  binary_round_aux prec emax sx (Z.pos mz) ez loc_Exact = S754_finite sx mz ez.
Proof.
  unfold canonical_mantissa. intros Hcanon Hle. apply Z.eqb_eq in Hcanon.
  unfold binary_round_aux, shr_fexp. simpl Zdigits2. rewrite Hcanon, Z.sub_diag.
  simpl. rewrite Hcanon, Z.sub_diag. simpl.
  destruct (Z.leb_spec ez (emax - prec)); [reflexivity | lia].
Qed.

(** An integer below 2^53 is a binary64 number: normalising it only shifts
    the mantissa. *)
Lemma binary_round_small (sx : bool) (p : positive) :
  Z.pos p < 2 ^ 53 ->
  exists (m : positive) (e : Z),
    binary_round prec emax sx p 0 = S754_finite sx m e
    /\ valid_binary (S754_finite sx m e) = true
    /\ e <= 0
    /\ Z.pos m = Z.pos p * 2 ^ (- e).
Proof.
  intros Hsmall.
  pose proof (digits2_pos_bound p) as [Hlow _].
  assert (Hd : Z.pos (digits2_pos p) <= 53).
  { destruct (Z.le_gt_cases (Z.pos (digits2_pos p)) 53) as [|Hbig]; [assumption|].
    exfalso. assert (2 ^ 53 <= 2 ^ (Z.pos (digits2_pos p) - 1)).
    { apply Z.pow_le_mono_r; lia. }
    lia. }
  unfold binary_round, shl_align.
  assert (Hfexp : fexp prec emax (Z.pos (digits2_pos p) + 0) = Z.pos (digits2_pos p) - 53).
  { unfold fexp, SpecFloat.emin, prec, emax. lia. }
  rewrite Hfexp, Z.sub_0_r.
  destruct (Z.pos (digits2_pos p) - 53) as [|k|k] eqn:Hshift; [| lia |].
  - (* 53 digits already *)
    exists p, 0.
    assert (Hcanon : canonical_mantissa prec emax p 0 = true).
    { unfold canonical_mantissa. apply Z.eqb_eq.
      unfold fexp, SpecFloat.emin, prec, emax. lia. }
    rewrite binary_round_aux_canonical by (auto; unfold prec, emax; lia).
    repeat split; [| lia | simpl; lia].
    simpl. unfold bounded. rewrite Hcanon. reflexivity.
  - (* shifted left by [k] *)
    exists (Pos.iter xO p k), (Z.neg k).
    assert (Hcanon : canonical_mantissa prec emax (Pos.iter xO p k) (Z.neg k) = true).
    { unfold canonical_mantissa. rewrite digits2_pos_iter_xO.
      apply Z.eqb_eq. unfold fexp, SpecFloat.emin, prec, emax. lia. }
    rewrite binary_round_aux_canonical by (auto; unfold prec, emax; lia).
    repeat split; [| lia | apply iter_xO_mul].
    simpl. unfold bounded. rewrite Hcanon. reflexivity.
Qed.

(** The mathematical value of a spec float. *)
Lemma float_value_Z2float (n : Z) :
  - 2 ^ 53 < n < 2 ^ 53 ->
  exists q : Q, float_value (Z2float n) = Some q /\ (q == inject_Z n)%Q.
Proof.
  intros Hn. unfold Z2float, float_value.
  destruct n as [|p|p]; simpl binary_normalize.
  - exists 0%Q. split; reflexivity.
  - destruct (binary_round_small false p) as (m & e & Hround & Hvalid & He & Hm); [lia|].
    rewrite Hround, (Prim2SF_SF2Prim _ Hvalid).
    destruct (Z.leb_spec 0 e).
    + assert (e = 0) by lia. subst e. eexists. split; [reflexivity|].
      simpl in Hm. unfold Qeq. simpl. lia.
    + eexists. split; [reflexivity|].
      assert (Hpow : 0 < 2 ^ (- e)) by (apply Z.pow_pos_nonneg; lia).
      unfold Qeq. simpl. rewrite Z2Pos.id by assumption. lia.
  - destruct (binary_round_small true p) as (m & e & Hround & Hvalid & He & Hm); [lia|].
    rewrite Hround, (Prim2SF_SF2Prim _ Hvalid).
    destruct (Z.leb_spec 0 e).
    + assert (e = 0) by lia. subst e. eexists. split; [reflexivity|].
      simpl in Hm. unfold Qeq. simpl. lia.
    + eexists. split; [reflexivity|].
      assert (Hpow : 0 < 2 ^ (- e)) by (apply Z.pow_pos_nonneg; lia).
      unfold Qeq. simpl. rewrite Z2Pos.id by assumption. lia.
Qed.

(** [round_half_up] is within one half of the number it rounds. *)
Lemma round_half_up_nearest (s : bool) (m : positive) (e : Z) :
  e < 0 ->
  let n := round_half_up s m e in
  let sm := if s then Z.neg m else Z.pos m in
  - 2 ^ (- e) <= 2 * (n * 2 ^ (- e) - sm) <= 2 ^ (- e).
Proof.
  intros He n sm. subst n. unfold round_half_up. fold sm.
  assert (Hpow : 0 < 2 ^ (- e)) by (apply Z.pow_pos_nonneg; lia).
  replace (1 - e) with (Z.succ (- e)) by lia. rewrite Z.pow_succ_r by lia.
  set (P := 2 ^ (- e)) in *.
  pose proof (Z.div_mod (2 * sm + P) (2 * P) ltac:(lia)) as Hdiv.
  pose proof (Z.mod_pos_bound (2 * sm + P) (2 * P) ltac:(lia)) as Hmod.
  lia.
Qed.

Lemma round_half_up_small (s : bool) (m : positive) (e : Z) :
  e < 0 -> Z.pos m < 2 ^ 53 ->
  - 2 ^ 53 < round_half_up s m e < 2 ^ 53.
Proof.
  intros He Hm. pose proof (round_half_up_nearest s m e He) as Hnear.
  simpl in Hnear.
  assert (Hpow : 2 <= 2 ^ (- e)).
  { change 2 with (2 ^ 1) at 1. apply Z.pow_le_mono_r; lia. }
  set (P := 2 ^ (- e)) in *. set (n := round_half_up s m e) in *.
  assert (Hsm : - 2 ^ 53 < (if s then Z.neg m else Z.pos m) < 2 ^ 53)
    by (destruct s; lia).
  set (sm := if s then Z.neg m else Z.pos m) in *.
  split; nia.
Qed.

Lemma finite_mantissa_small (x : float) (s : bool) (m : positive) (e : Z) :
  Prim2SF x = S754_finite s m e -> Z.pos m < 2 ^ 53.
Proof.
  intros Hx. pose proof (Prim2SF_valid x) as Hvalid. rewrite Hx in Hvalid.
  simpl in Hvalid. unfold bounded, canonical_mantissa in Hvalid.
  apply andb_true_iff in Hvalid as [Hcanon _]. apply Z.eqb_eq in Hcanon.
  pose proof (digits2_pos_bound m) as [_ Hup].
  assert (Hd : Z.pos (digits2_pos m) <= 53).
  { unfold fexp, SpecFloat.emin, prec, emax in Hcanon. lia. }
  assert (2 ^ Z.pos (digits2_pos m) <= 2 ^ 53) by (apply Z.pow_le_mono_r; lia).
  lia.
Qed.

(** [Math.round] of a finite number is an integer, and no integer is closer
    to the number. *)
Lemma Math_round_nearest (x : float) (v : Q) :
  float_value x = Some v ->
  exists (n : Z) (q : Q),
    float_value (Math_round x) = Some q
    /\ (q == inject_Z n)%Q
    /\ (Qabs (inject_Z n - v) <= 1 # 2)%Q.
Proof.
  unfold float_value at 1, Math_round.
  destruct (Prim2SF x) as [sz | | | s m e] eqn:Hx; try discriminate.
  - (* a zero *)
    intros [= <-]. exists 0, 0%Q. unfold float_value. rewrite Hx.
    repeat split; reflexivity || (vm_compute; discriminate).
  - destruct (Z.leb_spec 0 e) as [He|He].
    + (* already an integer *)
      intros [= <-].
      exists (if s then - (Z.pos m * 2 ^ e) else Z.pos m * 2 ^ e).
      eexists. unfold float_value. rewrite Hx.
      destruct (Z.leb_spec 0 e); [|lia]. split; [reflexivity|].
      destruct s; (split; [unfold Qeq; simpl; lia |]);
        apply Qabs_Qle_condition;
        unfold Qle, Qminus, Qplus, Qopp, inject_Z; simpl; split; lia.
    + (* a fraction: the floor of the number plus one half *)
      intros [= <-].
      pose proof (finite_mantissa_small x s m e Hx) as Hm.
      pose proof (round_half_up_nearest s m e He) as Hnear.
      pose proof (round_half_up_small s m e He Hm) as Hsmall.
      simpl in Hnear.
      assert (Hpow : 0 < 2 ^ (- e)) by (apply Z.pow_pos_nonneg; lia).
      exists (round_half_up s m e).
      assert (Hclose : (Qabs (inject_Z (round_half_up s m e)
                              - (if s then - (Z.pos m # Z.to_pos (2 ^ (- e)))
                                 else Z.pos m # Z.to_pos (2 ^ (- e))))
                        <= 1 # 2)%Q).
      { apply Qabs_Qle_condition.
        destruct s; unfold Qle, Qminus, Qplus, Qopp, inject_Z; simpl;
          rewrite !Pos2Z.inj_mul, ?Z2Pos.id by assumption; split; lia. }
      destruct (Z.eqb_spec (round_half_up s m e) 0) as [Hzero|Hnonzero].
      * exists 0%Q. rewrite Hzero in *.
        split; [destruct s; reflexivity|]. split; [reflexivity | exact Hclose].
      * destruct (float_value_Z2float (round_half_up s m e) Hsmall) as (q & Hq & Heq).
        exists q. auto.
Qed.

(** ** Defaults and invariants of the live location *)

Section LocationFacts.

Variable File : Type.
Variable readAsDataURL : File -> option string.
Variable identifyLandmark : option string -> JsError + MountainInfo.
Variable getVillageInsights : string -> JsError + VillageInfo.
Variable getSearchInfo : string -> JsError + SearchResult.

Local Abbreviation handle_event :=
  (handle File readAsDataURL identifyLandmark getVillageInsights getSearchInfo).
Local Abbreviation run_events :=
  (run File readAsDataURL identifyLandmark getVillageInsights getSearchInfo).

(** Only the position callbacks write the location and the altitude. *)
Lemma handle_keeps_position (ev : ShellEvent File) (w : World) :
  reading File ev = None ->
  currentLocation (app (exec (handle_event ev) w)) = currentLocation (app w)
  /\ currentAltitude (app (exec (handle_event ev) w)) = currentAltitude (app w).
Proof.
  destruct ev as [ | files | pos | position | error | t | ]; simpl;
    intros Hreading; try discriminate.
  - (* mount *)
    unfold App_effect_load, App_effect_watch, loadVillageData,
      navigator_geolocation, watchPosition. run_handler.
    destruct (getVillageInsights _); run_handler;
      [| destruct (getSearchInfo _); run_handler ];
      destruct (geolocation w) eqn:Hgeo; run_handler;
      rewrite ?Hgeo; split; reflexivity.
  - (* upload *)
    unfold exec, handleFileUpload.
    destruct files as [fs|]; simpl; [| split; reflexivity].
    destruct (array_get fs 0) as [file|]; simpl; [| split; reflexivity].
    destruct (readAsDataURL file) as [fullBase64|]; simpl; [| split; reflexivity].
    unfold reader_onload, try_catch_finally, await. simpl.
    destruct (identifyLandmark _); simpl; split; reflexivity.
  - split; reflexivity.
  - split; reflexivity.
  - split; reflexivity.
Qed.

(** A position callback stores the reading. *)
Lemma handle_stores_reading (ev : ShellEvent File) (c : Coords) (w : World) :
  reading File ev = Some c ->
  app (exec (handle_event ev) w) = position_stored (app w) c.
Proof.
  destruct ev; simpl; intros Hreading; try discriminate;
    injection Hreading as ->;
    unfold exec, getCurrentPosition_success, watchPosition_success, position_stored;
    simpl; destruct (coords_altitude c); reflexivity.
Qed.

Lemma run_snoc (evs : list (ShellEvent File)) (ev : ShellEvent File) (w : World) :
  run_events (evs ++ [ev]) w = exec (handle_event ev) (run_events evs w).
Proof.
  revert w. induction evs as [|ev' evs IH]; intros w; simpl; [reflexivity | apply IH].
Qed.

(** Before any reading, the location is the one the page starts with. *)
Lemma location_without_readings (evs : list (ShellEvent File)) (w : World) :
  Forall (fun ev => reading File ev = None) evs ->
  currentLocation (app (run_events evs w)) = currentLocation (app w).
Proof.
  revert w. induction evs as [|ev evs IH]; intros w Hnone; simpl; [reflexivity|].
  inversion Hnone as [|? ? Hev Hrest]; subst.
  rewrite IH by assumption. apply handle_keeps_position; assumption.
Qed.

(** Without a reported altitude, the stored altitude stays as it was. *)
Lemma altitude_without_reports (evs : list (ShellEvent File)) (w : World) :
  Forall (fun ev => reported_altitude ev = None) evs ->
  currentAltitude (app (run_events evs w)) = currentAltitude (app w).
Proof.
  revert w. induction evs as [|ev evs IH]; intros w Hnone; simpl; [reflexivity|].
  inversion Hnone as [|? ? Hev Hrest]; subst.
  rewrite IH by assumption.
  unfold reported_altitude in Hev.
  destruct (reading File ev) as [c|] eqn:Hreading.
  - rewrite (handle_stores_reading ev c w Hreading). simpl in *.
    rewrite Hev. reflexivity.
  - apply handle_keeps_position; assumption.
Qed.

(** A stored altitude is the rounding of a reported one, unless it was
    there from the start. *)
Lemma stored_altitude_is_rounded (evs : list (ShellEvent File)) (w : World) (a : float) :
  currentAltitude (app (run_events evs w)) = Some a ->
  currentAltitude (app w) = Some a
  \/ exists ev r, ev ∈ evs /\ reported_altitude ev = Some r /\ a = Math_round r.
Proof.
  induction evs as [|ev evs IH] using rev_ind; simpl; [auto|].
  rewrite run_snoc.
  destruct (reading File ev) as [c|] eqn:Hreading.
  - rewrite (handle_stores_reading ev c _ Hreading). simpl.
    destruct (coords_altitude c) as [r|] eqn:Hr.
    + intros [= <-]. right. exists ev, r. split; [set_solver|].
      unfold reported_altitude. rewrite Hreading. simpl. auto.
    + intros Hstored. destruct (IH Hstored) as [|(ev' & r & Hin & Hrep & Hround)]; [auto|].
      right. exists ev', r. split; [set_solver | auto].
  - destruct (handle_keeps_position ev (run_events evs w) Hreading) as [_ ->].
    intros Hstored. destruct (IH Hstored) as [|(ev' & r & Hin & Hrep & Hround)]; [auto|].
    right. exists ev', r. split; [set_solver | auto].
Qed.

(** C10. On a page that has been loaded and has handled any events: as long
    as no geolocation callback has fired, the stored location is that of the
    third waypoint, Takam Village (28.4230, 83.3333); as long as no reading
    carried an altitude, the displayed altitude is that waypoint's, 1670;
    and an altitude that is stored is displayed, and is [Math.round] of a
    reported altitude: for a finite reading, an integer, at most one half
    away from the reading. *)
Theorem takam_defaults_and_rounded_altitude
    (evs : list (ShellEvent File)) (g : option Geolocation) :
  let s := app (run_events evs (start g)) in
  (exists p : TrekPoint,
     array_get MOCK_TREK_DATA 2 = Some p
     /\ label p = "Takam Village"
     /\ lat p = 28.4230%float /\ lng p = 83.3333%float /\ altitude p = 1670%float
     /\ (Forall (fun ev => reading File ev = None) evs ->
         currentLocation s = {| loc_lat := lat p; loc_lng := lng p |})
     /\ (Forall (fun ev => reported_altitude ev = None) evs ->
         displayedAltitude s = inr (altitude p)))
  /\
  (forall a : float,
     currentAltitude s = Some a ->
     displayedAltitude s = inr a
     /\ exists (ev : ShellEvent File) (r : float),
          ev ∈ evs /\ reported_altitude ev = Some r /\ a = Math_round r
          /\ forall v : Q,
               float_value r = Some v ->
               exists (n : Z) (q : Q),
                 float_value a = Some q
                 /\ (q == inject_Z n)%Q
                 /\ (Qabs (inject_Z n - v) <= 1 # 2)%Q).
Proof.
  intros s. split.
  - eexists. split; [reflexivity|]. repeat split.
    + intros Hnone. subst s. rewrite location_without_readings by assumption.
      reflexivity.
    + intros Hnone. subst s. unfold displayedAltitude.
      rewrite altitude_without_reports by assumption. reflexivity.
  - intros a Hstored. split.
    + unfold displayedAltitude. rewrite Hstored. reflexivity.
    + subst s. apply stored_altitude_is_rounded in Hstored
        as [Hstart | (ev & r & Hin & Hrep & Hround)]; [discriminate|].
      exists ev, r. repeat split; try assumption.
      intros v Hv. subst a. apply Math_round_nearest. assumption.
Qed.

End LocationFacts.

(** C10 after mounting, a tab change and an upload: no reading yet. *)
Lemma takam_defaults_after_browsing :
  let s := app (run unit read_picture classifies insight_ok search_down
                  [Mounted unit; TabClicked unit trek; FileChosen unit (Some [tt])]
                  (start None)) in
  currentLocation s = {| loc_lat := 28.4230; loc_lng := 83.3333 |}
  /\ displayedAltitude s = inr 1670%float.
Proof.
  destruct (proj1 (takam_defaults_and_rounded_altitude unit read_picture classifies
                     insight_ok search_down
                     [Mounted unit; TabClicked unit trek; FileChosen unit (Some [tt])]
                     None))
    as (p & Hp & _ & Hlat & Hlng & Halt & Hlocation & Haltitude).
  split.
  - rewrite Hlocation by (repeat constructor). rewrite Hlat, Hlng. reflexivity.
  - rewrite Haltitude by (repeat constructor). rewrite Halt. reflexivity.
Defined.

(** A reading with an altitude: the stored altitude is the rounded one. *)
Example altitude_reading_is_rounded :
  currentAltitude (app (run unit read_picture classifies insight_ok search_down
                          [PositionWatched unit
                             {| latitude := 28.5; longitude := 83.25;
                                coords_altitude := Some 2199.5%float |}]
                          (start None)))
  = Some 2200%float.
Proof. reflexivity. Qed.

(** ** The trail map view *)

Lemma bind_run {A B : Type} (m : M A) (k : A -> M B) (w w' : World) (a : A) :
  m w = (inr a, w') -> (m ≫= k) w = k a w'.
Proof. intros Hm. unfold mbind, M_bind. rewrite Hm. reflexivity. Qed.

Lemma lookup_snoc {A : Type} (l : list A) (x : A) : (l ++ [x]) !! length l = Some x.
Proof. apply list_lookup_middle. reflexivity. Qed.

Lemma insert_snoc {A : Type} (l : list A) (x y : A) :
  <[length l := y]> (l ++ [x]) = l ++ [y].
Proof. rewrite insert_app_r_alt by lia. rewrite Nat.sub_diag. reflexivity. Qed.

(** The widget's operations on the map created last. *)
Lemma addTo_last (w : World) (ms : list LMap) (mp : LMap) (os : list Layer) (ly : nat) :
  leaflet w = {| maps := ms ++ [mp]; objects := os |} ->
  addTo ly (length ms) w =
  (inr ly, with_leaflet {| maps := ms ++ [with_layer mp ly]; objects := os |} w).
Proof.
  intros Hl. unfold addTo. rewrite Hl. simpl. rewrite lookup_snoc, insert_snoc.
  reflexivity.
Qed.

Lemma camera_call_last (w : World) (ms : list LMap) (mp : LMap) (os : list Layer)
    (c : CameraCall) :
  leaflet w = {| maps := ms ++ [mp]; objects := os |} ->
  camera_call (length ms) c w =
  (inr (length ms),
   with_leaflet {| maps := ms ++ [with_camera mp c]; objects := os |} w).
Proof.
  intros Hl. unfold camera_call. rewrite Hl. simpl. rewrite lookup_snoc, insert_snoc.
  reflexivity.
Qed.

(** Reading and moving an object of the store by its identity. *)
Lemma getBounds_at (w : World) (os1 os2 : list Layer) (latlngs : list LatLng)
    (opts : PolylineOptions) :
  objects (leaflet w) = os1 ++ Polyline latlngs opts :: os2 ->
  getBounds (length os1) w = (inr (bounds_of latlngs), w).
Proof.
  intros Hos. unfold getBounds. rewrite Hos, list_lookup_middle by reflexivity.
  reflexivity.
Qed.

Lemma setLatLng_at (w : World) (os1 os2 : list Layer) (pos pos' : LatLng)
    (icon : DivIcon) (z : option float) :
  objects (leaflet w) = os1 ++ Marker pos icon z :: os2 ->
  setLatLng (length os1) pos' w =
  (inr tt,
   with_leaflet {| maps := maps (leaflet w);
                   objects := os1 ++ Marker pos' icon z :: os2 |} w).
Proof.
  intros Hos. unfold setLatLng. rewrite Hos, list_lookup_middle by reflexivity.
  rewrite insert_app_r_alt by lia. rewrite Nat.sub_diag. reflexivity.
Qed.

(** The loop over the trail adds one marker per waypoint, in order, to the
    store and to the map. *)
Lemma forEach_waypoint_markers (trail : list TrekPoint) :
  forall (w : World) (ms : list LMap) (mp : LMap) (os : list Layer),
    leafletMap (refs w) = Some (length ms) ->
    leaflet w = {| maps := ms ++ [mp]; objects := os |} ->
    forEach trail (fun p =>
        k ← L_marker (waypoint_latLng p) (wpIcon p) None;
        m ← leafletMap_current;
        addTo k m;;
        mret tt) w =
    (inr tt,
     with_leaflet
       {| maps := ms ++ [ {| container := container mp; zoomControl := zoomControl mp;
                             attributionControl := attributionControl mp;
                             camera := camera mp;
                             layers := layers mp ++ seq (length os) (length trail) |} ];
          objects := os ++ map waypoint_marker trail |} w).
Proof.
  induction trail as [|p trail IH]; intros w ms mp os Href Hl.
  - destruct w as [a t g r l], mp. simpl in *. subst l.
    unfold mret, M_ret, with_leaflet. simpl. rewrite !app_nil_r. reflexivity.
  - simpl forEach.
    erewrite bind_run.
    2: { erewrite bind_run by reflexivity.
         erewrite bind_run
           by (unfold leafletMap_current; erewrite bind_run by reflexivity;
               simpl; rewrite Href; reflexivity).
         erewrite bind_run
           by (erewrite addTo_last by (simpl; rewrite Hl; reflexivity); reflexivity).
         reflexivity. }
    erewrite IH; [| simpl; exact Href | simpl; reflexivity].
    tidy. rewrite Hl. simpl.
    rewrite <- !app_assoc, length_app. simpl.
    replace (length os + 1)%nat with (S (length os)) by lia. reflexivity.
Qed.

(** The whole of the first effect of a view mounted on [el]. *)
Lemma first_render_run (w : World) (el : nat) (lat lng : float) (trail : list TrekPoint) :
  (mount_view (Some el);; SatelliteMapView_effect lat lng trail) w =
  (inr tt,
   {| app := app w; trace := trace w; geolocation := geolocation w;
      refs := rendered_refs el w;
      leaflet :=
        {| maps := maps (leaflet w)
                   ++ [rendered_map el lat lng trail (length (objects (leaflet w)))];
           objects := objects (leaflet w) ++ rendered_layers lat lng trail |} |}).
Proof.
  destruct w as [a t g r [ms os]].
  unfold SatelliteMapView_effect.
  erewrite bind_run by reflexivity.
  erewrite bind_run by reflexivity. tidy.
  erewrite bind_run.
  2: {
    (* the map and its first view *)
    erewrite bind_run.
    2: { erewrite bind_run by reflexivity.
         unfold setView. erewrite camera_call_last by reflexivity. reflexivity. }
    erewrite bind_run by reflexivity. tidy.
    (* the tile layer *)
    erewrite bind_run by reflexivity. tidy.
    erewrite bind_run by reflexivity. tidy.
    erewrite bind_run by (erewrite addTo_last by reflexivity; reflexivity). tidy.
    (* the user marker *)
    erewrite bind_run.
    2: { erewrite bind_run by reflexivity. tidy.
         erewrite bind_run by reflexivity. tidy.
         erewrite addTo_last by reflexivity. reflexivity. }
    tidy.
    erewrite bind_run by reflexivity. tidy.
    (* the trail *)
    erewrite bind_run.
    2: { erewrite bind_run by reflexivity. tidy.
         erewrite bind_run by reflexivity. tidy.
         erewrite addTo_last by reflexivity. reflexivity. }
    tidy.
    erewrite bind_run by reflexivity. tidy.
    (* the waypoint markers *)
    erewrite bind_run by (erewrite forEach_waypoint_markers by reflexivity; reflexivity).
    tidy.
    (* the first fit *)
    erewrite bind_run by reflexivity. tidy.
    erewrite bind_run by reflexivity. tidy.
    erewrite bind_run
      by (erewrite getBounds_at by (simpl; rewrite <- app_assoc; reflexivity);
          reflexivity).
    erewrite bind_run
      by (unfold fitBounds; erewrite camera_call_last by reflexivity; reflexivity).
    reflexivity.
  }
  tidy.
  erewrite bind_run by reflexivity. tidy.
  rewrite (setLatLng_at _ (os ++ [TileLayer imagery_url 19])
             (Polyline (map waypoint_latLng trail) trailStyle :: map waypoint_marker trail)
             (latLng lat lng) (latLng lat lng) userIcon (Some 1000%float))
    by (simpl; rewrite <- !app_assoc; reflexivity).
  tidy. unfold rendered_refs, rendered_map, rendered_layers. simpl.
  rewrite !length_app, <- !app_assoc. simpl.
  rewrite !Nat.add_1_r.
  replace (length os + 2)%nat with (S (S (length os))) by lia.
  reflexivity.
Qed.

(** C7. The effect after the first render of a view mounted on an element:
    it ends normally; the widget holds exactly one more map instance, on
    that element, whose first camera call is [setView] to the live location
    at zoom 13 (the fit to the trail follows it); the store holds, in this
    order, the new tile layer, the user marker at the live location, the
    polyline whose points are the latitude and longitude of every waypoint
    of the trail, in the order of the trail, and one marker per waypoint,
    at the waypoint's latitude and longitude, whose markup carries the
    waypoint's label; all of them are on the map; the refs point to the map,
    the user marker and the polyline; the shell is not touched. *)
Theorem first_render_builds_the_map (w : World) (el : nat) (live_lat live_lng : float)
    (trail : list TrekPoint) :
  let first_layer := length (objects (leaflet w)) in
  let mounted := exec (mount_view (Some el)) w in
  let w' := exec (SatelliteMapView_effect live_lat live_lng trail) mounted in
  let path := map (fun p => latLng (lat p) (lng p)) trail in
  let marker_of := fun p : TrekPoint =>
    Marker (latLng (lat p) (lng p))
      {| className := "wp-icon";
         html := String.app wpIcon_html_before (String.app (label p) wpIcon_html_after);
         iconSize := (60, 40)%float;
         iconAnchor := (30, 8)%float |}
      None in
  outcome (SatelliteMapView_effect live_lat live_lng trail) mounted = inr tt
  /\ maps (leaflet w') =
       maps (leaflet w) ++
       [ {| container := el; zoomControl := false; attributionControl := false;
            camera := [SetView (latLng live_lat live_lng) 13;
                       FitBounds (bounds_of path) (50, 50)%float];
            layers := seq first_layer (3 + length trail) |} ]
  /\ objects (leaflet w') =
       objects (leaflet w) ++
       [TileLayer imagery_url 19;
        Marker (latLng live_lat live_lng) userIcon (Some 1000%float);
        Polyline path trailStyle]
       ++ map marker_of trail
  /\ (forall (i : nat) (p : TrekPoint),
        trail !! i = Some p ->
        path !! i = Some (latLng (lat p) (lng p))
        /\ objects (leaflet w') !! (first_layer + 3 + i)%nat = Some (marker_of p))
  /\ refs w' = {| mapRef := Some el;
                  leafletMap := Some (length (maps (leaflet w)));
                  userMarker := Some (first_layer + 1)%nat;
                  trailLayer := Some (first_layer + 2)%nat |}
  /\ app w' = app w /\ trace w' = trace w /\ geolocation w' = geolocation w.
Proof.
  intros first_layer mounted w' path marker_of.
  pose proof (first_render_run w el live_lat live_lng trail) as Hrun.
  assert (Hsplit : SatelliteMapView_effect live_lat live_lng trail mounted =
                   (mount_view (Some el);; SatelliteMapView_effect live_lat live_lng trail) w)
    by reflexivity.
  subst w'. unfold exec, outcome. rewrite Hsplit, Hrun. simpl.
  do 3 (split; [reflexivity|]). split; [| repeat split].
  intros i p Hp. split.
  - subst path. rewrite list_lookup_fmap, Hp. reflexivity.
  - unfold rendered_layers. rewrite app_assoc.
    rewrite lookup_app_r by (rewrite length_app; simpl; fold first_layer; lia).
    rewrite length_app. simpl. fold first_layer.
    replace (first_layer + 3 + i - (first_layer + 3))%nat with i by lia.
    rewrite list_lookup_fmap, Hp. reflexivity.
Qed.

(** Once the map is there, the effect only moves the user marker. *)
Lemma update_run (w : World) (m mk : nat) (pos : LatLng) (icon : DivIcon)
    (z : option float) (lat lng : float) (trail : list TrekPoint) :
  leafletMap (refs w) = Some m ->
  userMarker (refs w) = Some mk ->
  objects (leaflet w) !! mk = Some (Marker pos icon z) ->
  SatelliteMapView_effect lat lng trail w =
  (inr tt,
   with_leaflet {| maps := maps (leaflet w);
                   objects := <[ mk := Marker (latLng lat lng) icon z ]>
                                (objects (leaflet w)) |} w).
Proof.
  intros Hmap Hmarker Hobject. unfold SatelliteMapView_effect.
  erewrite bind_run by reflexivity. rewrite Hmap.
  erewrite bind_run by (destruct (mapRef (refs w)); reflexivity).
  erewrite bind_run by reflexivity. rewrite Hmap, Hmarker.
  unfold setLatLng. rewrite Hobject. reflexivity.
Qed.

Lemma last_default {A : Type} (l : list A) (x d d' : A) :
  List.last (x :: l) d = List.last (x :: l) d'.
Proof.
  revert x. induction l as [|y l IH]; intros x; [reflexivity|].
  change (List.last (y :: l) d = List.last (y :: l) d'). apply IH.
Qed.

Lemma last_position_cons (first u : float * float) (updates : list (float * float)) :
  last_position first (u :: updates) = last_position u updates.
Proof.
  unfold last_position.
  destruct updates as [|v updates]; [reflexivity|].
  change (List.last (u :: v :: updates) first) with (List.last (v :: updates) first).
  rewrite (last_default updates v first u). reflexivity.
Qed.

Lemma live_updates_run (trail : list TrekPoint) (updates : list (float * float)) :
  forall (w : World) (m mk : nat) (pos : LatLng) (icon : DivIcon) (z : option float),
    leafletMap (refs w) = Some m ->
    userMarker (refs w) = Some mk ->
    objects (leaflet w) !! mk = Some (Marker pos icon z) ->
    live_updates updates trail w =
    (inr tt,
     with_leaflet
       {| maps := maps (leaflet w);
          objects := <[ mk := Marker (last_position (ll_lat pos, ll_lng pos) updates) icon z ]>
                       (objects (leaflet w)) |} w).
Proof.
  induction updates as [|[lat lng] updates IH]; intros w m mk pos icon z Hmap Hmarker Hobject.
  - destruct w as [a t g r [ms os]], pos. simpl in *.
    unfold last_position. simpl. rewrite list_insert_id by assumption. reflexivity.
  - simpl live_updates.
    erewrite bind_run by (eapply update_run; eassumption).
    rewrite (IH _ m mk (latLng lat lng) icon z); [| exact Hmap | exact Hmarker |].
    + unfold with_leaflet. simpl. rewrite list_insert_insert_eq.
      rewrite last_position_cons. reflexivity.
    + simpl. apply list_lookup_insert_eq. eapply lookup_lt_Some. eassumption.
Qed.

(** C5. Through the life of a view mounted on an element, after the first
    render any number of live-location updates leave the widget's maps (the
    one instance, its camera and its layers) and the refs as the first
    render made them, create no object, and change no object but the user
    marker, which stands at the last reported location with the icon it was
    created with; the shell is not touched. *)
Theorem live_updates_move_only_the_user_marker (w : World) (el : nat)
    (first : float * float) (updates : list (float * float)) (trail : list TrekPoint) :
  let mk := (length (objects (leaflet w)) + 1)%nat in
  let w1 := exec (mount_view (Some el);;
                  SatelliteMapView_effect (fst first) (snd first) trail) w in
  let wN := exec (live_updates updates trail) w1 in
  outcome (live_updates updates trail) w1 = inr tt
  /\ maps (leaflet wN) = maps (leaflet w1)
  /\ length (maps (leaflet wN)) = S (length (maps (leaflet w)))
  /\ refs wN = refs w1
  /\ userMarker (refs wN) = Some mk
  /\ objects (leaflet wN) =
       <[ mk := Marker (last_position first updates) userIcon (Some 1000%float) ]>
         (objects (leaflet w1))
  /\ length (objects (leaflet wN)) = (length (objects (leaflet w)) + 3 + length trail)%nat
  /\ (forall i : nat, i <> mk -> objects (leaflet wN) !! i = objects (leaflet w1) !! i)
  /\ app wN = app w /\ trace wN = trace w /\ geolocation wN = geolocation w.
Proof.
  intros mk w1 wN.
  pose proof (first_render_run w el (fst first) (snd first) trail) as Hfirst.
  assert (Hw1 : w1 = snd ((mount_view (Some el);;
                           SatelliteMapView_effect (fst first) (snd first) trail) w))
    by reflexivity.
  rewrite Hfirst in Hw1. simpl in Hw1.
  assert (Hobject : objects (leaflet w1) !! mk =
                    Some (Marker (latLng (fst first) (snd first)) userIcon (Some 1000%float))).
  { rewrite Hw1. simpl. unfold rendered_layers, mk.
    replace (objects (leaflet w) ++
             [TileLayer imagery_url 19;
              Marker (latLng (fst first) (snd first)) userIcon (Some 1000%float);
              Polyline (map waypoint_latLng trail) trailStyle] ++
             map waypoint_marker trail)
      with ((objects (leaflet w) ++ [TileLayer imagery_url 19]) ++
            Marker (latLng (fst first) (snd first)) userIcon (Some 1000%float)
            :: Polyline (map waypoint_latLng trail) trailStyle
            :: map waypoint_marker trail)
      by (rewrite <- app_assoc; reflexivity).
    apply list_lookup_middle. rewrite length_app. reflexivity. }
  pose proof (live_updates_run trail updates w1 (length (maps (leaflet w))) mk
                (latLng (fst first) (snd first)) userIcon (Some 1000%float)) as Hrun.
  simpl in Hrun. destruct first as [lat0 lng0]. simpl in *.
  specialize (Hrun ltac:(rewrite Hw1; reflexivity) ltac:(rewrite Hw1; reflexivity) Hobject).
  subst wN. unfold exec, outcome. rewrite Hrun. simpl.
  split; [reflexivity|]. split; [reflexivity|].
  split; [rewrite Hw1; simpl; rewrite length_app; simpl; lia|].
  split; [reflexivity|].
  split; [rewrite Hw1; reflexivity|].
  split; [reflexivity|].
  split.
  { rewrite length_insert, Hw1. simpl. unfold rendered_layers.
    rewrite !length_app, length_map. simpl. lia. }
  split.
  { intros i Hi. apply list_lookup_insert_ne. congruence. }
  rewrite Hw1. repeat split.
Qed.

(** A camera call changes nothing but the camera of the map it is made on. *)
Lemma camera_call_frame (m : nat) (c : CameraCall) (w : World) :
  only_camera_changed w (snd (camera_call m c w)).
Proof.
  unfold only_camera_changed, camera_call.
  destruct (maps (leaflet w) !! m) as [mp|] eqn:Hmp; simpl; [| repeat split].
  repeat split.
  rewrite list_fmap_insert. apply list_insert_id.
  rewrite list_lookup_fmap, Hmp. reflexivity.
Qed.

Lemma only_camera_changed_refl (w : World) : only_camera_changed w w.
Proof. repeat split. Qed.

(** C6. Recenter and Fit-trail leave the shell's state, what was recorded,
    the platform, the refs, every layer object of the store (the polyline
    and the markers among them) and, of every map, everything but its
    camera as they were; the map of the view, if there is one, receives
    exactly one more camera call: [flyTo] the live location at zoom 15, or
    [flyToBounds] the bounds of the trail polyline. *)
Theorem camera_actions_change_only_the_camera (w : World) (lat lng : float) :
  (let w' := exec (handleRecenter lat lng) w in
   only_camera_changed w w'
   /\ maps (leaflet w') =
        match leafletMap (refs w) with
        | Some m =>
            match maps (leaflet w) !! m with
            | Some mp => <[ m := with_camera mp (FlyTo (latLng lat lng) 15) ]> (maps (leaflet w))
            | None => maps (leaflet w)
            end
        | None => maps (leaflet w)
        end)
  /\
  (let w' := exec showEntireTrail w in
   only_camera_changed w w'
   /\ maps (leaflet w') =
        match trailLayer (refs w), leafletMap (refs w) with
        | Some pl, Some m =>
            match objects (leaflet w) !! pl, maps (leaflet w) !! m with
            | Some (Polyline latlngs _), Some mp =>
                <[ m := with_camera mp (FlyToBounds (bounds_of latlngs) (50, 50)%float) ]>
                  (maps (leaflet w))
            | _, _ => maps (leaflet w)
            end
        | _, _ => maps (leaflet w)
        end).
Proof.
  split.
  - unfold exec, handleRecenter. erewrite bind_run by reflexivity.
    destruct (leafletMap (refs w)) as [m|]; [| split; [apply only_camera_changed_refl | reflexivity]].
    pose proof (camera_call_frame m (FlyTo (latLng lat lng) 15) w) as Hframe.
    unfold flyTo, mbind, M_bind. unfold camera_call in *.
    destruct (maps (leaflet w) !! m) as [mp|]; simpl in *; split; auto.
  - unfold exec, showEntireTrail. erewrite bind_run by reflexivity.
    destruct (trailLayer (refs w)) as [pl|]; [| split; [apply only_camera_changed_refl | reflexivity]].
    destruct (leafletMap (refs w)) as [m|]; [| split; [apply only_camera_changed_refl | reflexivity]].
    unfold mbind, M_bind, getBounds.
    destruct (objects (leaflet w) !! pl) as [[ | | latlngs opts]|];
      try (split; [apply only_camera_changed_refl | reflexivity]).
    pose proof (camera_call_frame m (FlyToBounds (bounds_of latlngs) (50, 50)%float) w) as Hframe.
    unfold flyToBounds. unfold camera_call in *.
    destruct (maps (leaflet w) !! m) as [mp|]; simpl in *; split; auto.
Qed.

(** The fixed trail on a freshly loaded page: one map, ten layers, and the
    user marker where the last update put it. *)
Example trail_view_lifetime :
  let w := exec (mount_view (Some 0%nat);;
                 SatelliteMapView_effect 28.4230 83.3333 MOCK_TREK_DATA;;
                 live_updates [(28.43, 83.32); (28.44, 83.31)]%float MOCK_TREK_DATA;;
                 handleRecenter 28.44 83.31;;
                 showEntireTrail) (start None) in
  length (maps (leaflet w)) = 1%nat
  /\ length (objects (leaflet w)) = 10%nat
  /\ objects (leaflet w) !! 1%nat =
       Some (Marker (latLng 28.44 83.31) userIcon (Some 1000%float))
  /\ (camera <$> maps (leaflet w) !! 0%nat) =
       Some [SetView (latLng 28.4230 83.3333) 13;
             FitBounds (bounds_of (map waypoint_latLng MOCK_TREK_DATA)) (50, 50)%float;
             FlyTo (latLng 28.44 83.31) 15;
             FlyToBounds (bounds_of (map waypoint_latLng MOCK_TREK_DATA)) (50, 50)%float].
Proof. vm_compute. repeat split. Qed.

(** C7 on the fixed trail, from a freshly loaded page: the camera calls,
    the user marker, the seven points of the polyline, and the marker of
    the third waypoint, the sixth of the ten objects of the store. *)
Lemma first_render_on_the_trail :
  let w' := exec (SatelliteMapView_effect 28.4230 83.3333 MOCK_TREK_DATA)
              (exec (mount_view (Some 0%nat)) (start None)) in
  let path := [latLng 28.3444 83.5651; latLng 28.4067 83.4000; latLng 28.4230 83.3333;
               latLng 28.4833 83.2500; latLng 28.5333 83.2333; latLng 28.5833 83.2167;
               latLng 28.6750 83.4722]%float in
  (camera <$> maps (leaflet w') !! 0%nat)
  = Some [SetView (latLng 28.4230 83.3333) 13; FitBounds (bounds_of path) (50, 50)%float]
  /\ objects (leaflet w') !! 1%nat
     = Some (Marker (latLng 28.4230 83.3333) userIcon (Some 1000%float))
  /\ objects (leaflet w') !! 2%nat = Some (Polyline path trailStyle)
  /\ objects (leaflet w') !! 5%nat
     = Some (Marker (latLng 28.4230 83.3333)
               {| className := "wp-icon";
                  html := String.app wpIcon_html_before
                            (String.app "Takam Village" wpIcon_html_after);
                  iconSize := (60, 40)%float;
                  iconAnchor := (30, 8)%float |}
               None)
  /\ length (objects (leaflet w')) = 10%nat.
Proof.
  destruct (first_render_builds_the_map (start None) 0 28.4230 83.3333 MOCK_TREK_DATA)
    as (_ & Hmaps & Hobjects & _).
  cbv zeta. rewrite Hmaps, Hobjects. repeat split.
Defined.

(** C5 on the fixed trail: after two updates the tile layer is the object
    it was after the first render. *)
Lemma tile_layer_survives_updates :
  let w1 := exec (mount_view (Some 0%nat);;
                  SatelliteMapView_effect 28.4230 83.3333 MOCK_TREK_DATA) (start None) in
  let wN := exec (live_updates [(28.43, 83.32); (28.44, 83.31)]%float MOCK_TREK_DATA) w1 in
  objects (leaflet wN) !! 0%nat = objects (leaflet w1) !! 0%nat.
Proof.
  destruct (live_updates_move_only_the_user_marker (start None) 0
              (28.4230, 83.3333)%float [(28.43, 83.32); (28.44, 83.31)]%float
              MOCK_TREK_DATA)
    as (_ & _ & _ & _ & _ & _ & _ & Hothers & _).
  apply Hothers. simpl. lia.
Defined.

(** An upload whose file cannot be read: [onload] never fires, and the
    loading flag stays set. *)
Example unreadable_upload_keeps_loading :
  let w' := exec (handleFileUpload unit (fun _ => None) classifies (Some [tt])) (start None) in
  trace w' = [SetLoading true] /\ loading (app w') = true.
Proof. split; reflexivity. Qed.

(** * Further facts *)

(** ** Uploads: edge cases *)

Section UploadEdgeFacts.

Variable File : Type.
Variable readAsDataURL : File -> option string.
Variable identifyLandmark : option string -> JsError + MountainInfo.
Variable getVillageInsights : string -> JsError + VillageInfo.
Variable getSearchInfo : string -> JsError + SearchResult.

Local Abbreviation upload := (handleFileUpload File readAsDataURL identifyLandmark).
Local Abbreviation handle_event :=
  (handle File readAsDataURL identifyLandmark getVillageInsights getSearchInfo).
Local Abbreviation run_events :=
  (run File readAsDataURL identifyLandmark getVillageInsights getSearchInfo).

(** A change event without a file ([files] is [null], or the list is
    empty) does nothing: the handler returns at once, nothing is recorded
    and the world is as it was. *)
Lemma upload_without_file_does_nothing (w : World) (files : option (list File)) :
  files = None \/ files = Some [] ->
  upload files w = (inr tt, w).
Proof. intros [-> | ->]; reflexivity. Qed.

Lemma upload_unreadable_run (w : World) (files : list File) (file : File) :
  array_get files 0 = Some file ->
  readAsDataURL file = None ->
  upload (Some files) w = (inr tt, exec (setLoading true) w).
Proof.
  intros Hfile Hread. unfold handleFileUpload. simpl. rewrite Hfile.
  erewrite bind_run by reflexivity. rewrite Hread. reflexivity.
Qed.

(** The loading flag is written by the mount and by an upload with a file
    only. *)
Lemma handle_leaves_loading (ev : ShellEvent File) (w : World) :
  leaves_loading readAsDataURL ev = true ->
  loading (app (exec (handle_event ev) w)) = loading (app w)
  \/ loading (app (exec (handle_event ev) w)) = true.
Proof.
  destruct ev as [ | files | pos | position | error | t | ]; simpl;
    intros Hquiet; try discriminate.
  - unfold exec, handleFileUpload.
    destruct (files ≫= (fun fs => array_get fs 0)) as [file|]; [| left; reflexivity].
    destruct (readAsDataURL file); [discriminate|]. right. reflexivity.
  - left. unfold exec, getCurrentPosition_success. simpl.
    destruct (coords_altitude pos); reflexivity.
  - left. unfold exec, watchPosition_success. simpl.
    destruct (coords_altitude position); reflexivity.
  - left. reflexivity.
  - left. reflexivity.
  - left. reflexivity.
Qed.

Lemma loading_stays_set (evs : list (ShellEvent File)) (w : World) :
  Forall (fun ev => leaves_loading readAsDataURL ev = true) evs ->
  loading (app w) = true ->
  loading (app (run_events evs w)) = true.
Proof.
  revert w. induction evs as [|ev evs IH]; intros w Hquiet Hset; simpl; [assumption|].
  inversion Hquiet as [|? ? Hev Hrest]; subst. apply IH; [assumption|].
  destruct (handle_leaves_loading ev w Hev) as [Hsame | Htrue]; congruence.
Qed.

(** X1. An upload whose file cannot be read records [setLoading(true)] and
    nothing else: [onload] never fires, so the flag is not cleared; and it
    stays set through every later tab click, position callback, scan-next
    and upload without a readable file. *)
Theorem unreadable_upload_leaves_loading_set
    (w : World) (files : list File) (file : File) (later : list (ShellEvent File)) :
  array_get files 0 = Some file ->
  readAsDataURL file = None ->
  Forall (fun ev => leaves_loading readAsDataURL ev = true) later ->
  let w' := exec (upload (Some files)) w in
  outcome (upload (Some files)) w = inr tt
  /\ trace w' = trace w ++ [SetLoading true]
  /\ loading (app w') = true
  /\ loading (app (run_events later w')) = true.
Proof.
  intros Hfile Hread Hlater w'. subst w'. unfold exec, outcome.
  rewrite (upload_unreadable_run w files file Hfile Hread). simpl.
  repeat split. apply loading_stays_set; [assumption | reflexivity].
Qed.

End UploadEdgeFacts.

(** X1 on a freshly loaded page, with a tab click and a reading after it. *)
Lemma unreadable_upload_on_fresh_page :
  loading (app (run unit (fun _ => None) classifies insight_ok search_down
                  [TabClicked unit trek;
                   PositionWatched unit {| latitude := 28.5; longitude := 83.25;
                                           coords_altitude := None |}]
                  (exec (handleFileUpload unit (fun _ => None) classifies (Some [tt]))
                     (start None))))
  = true.
Proof.
  destruct (unreadable_upload_leaves_loading_set unit (fun _ => None) classifies
              insight_ok search_down (start None) [tt] tt
              [TabClicked unit trek;
               PositionWatched unit {| latitude := 28.5; longitude := 83.25;
                                       coords_altitude := None |}]
              eq_refl eq_refl ltac:(repeat constructor))
    as (_ & _ & _ & Hstays).
  exact Hstays.
Defined.

(** The same on a freshly loaded page. *)
Lemma upload_without_file_on_fresh_page :
  handleFileUpload unit read_picture classifies None (start None)
  = (inr tt, start None).
Proof.
  apply (upload_without_file_does_nothing unit read_picture classifies).
  left. reflexivity.
Defined.

(** ** The payload of the identification call *)

Lemma split_on_not_nil (sep : ascii) (s : string) : split_on sep s <> [].
Proof.
  induction s as [|c s IH]; simpl; [discriminate|].
  destruct (Ascii.eqb c sep); [discriminate|].
  destruct (split_on sep s); [contradiction | discriminate].
Qed.

Lemma split_on_comma_free (s : string) :
  comma_free s = true -> split_on comma s = [s].
Proof.
  induction s as [|c s IH]; simpl; [reflexivity|].
  intros Hfree. apply andb_true_iff in Hfree as [Hc Hs].
  apply negb_true_iff in Hc. rewrite Hc, (IH Hs). reflexivity.
Qed.

Lemma split_on_before_comma (header rest : string) :
  comma_free header = true ->
  split_on comma (String.app header (String comma rest)) = header :: split_on comma rest.
Proof.
  induction header as [|c header IH]; simpl; intros Hfree.
  - reflexivity.
  - apply andb_true_iff in Hfree as [Hc Hs].
    apply negb_true_iff in Hc. rewrite Hc, (IH Hs). reflexivity.
Qed.

Lemma split_on_pieces_comma_free (s : string) :
  Forall (fun piece => comma_free piece = true) (split_on comma s).
Proof.
  induction s as [|c s IH]; simpl; [repeat constructor|].
  destruct (Ascii.eqb c comma) eqn:Hc; [constructor; [reflexivity | assumption]|].
  destruct (split_on comma s) as [|piece pieces]; [repeat constructor; simpl; rewrite Hc; reflexivity|].
  inversion IH as [|? ? Hpiece Hpieces]; subst.
  constructor; [| assumption]. simpl. rewrite Hc, Hpiece. reflexivity.
Qed.

(** Splitting at the commas and joining with commas are inverse to each
    other: joining the pieces of a string gives the string back, no piece
    of a split holds a comma, and splitting the join of comma-free pieces
    (at least one) gives the pieces back. *)
Lemma split_join_round_trip (s : string) (piece : string) (pieces : list string) :
  join_comma (split_on comma s) = s
  /\ Forall (fun p => comma_free p = true) (split_on comma s)
  /\ (Forall (fun p => comma_free p = true) (piece :: pieces) ->
      split_on comma (join_comma (piece :: pieces)) = piece :: pieces).
Proof.
  split; [| split; [apply split_on_pieces_comma_free |]].
  - induction s as [|c s IH]; [reflexivity|]. simpl.
    destruct (Ascii.eqb_spec c comma) as [-> | Hc].
    + unfold join_comma in *. simpl.
      destruct (split_on comma s) as [|p ps] eqn:Hsplit;
        [exfalso; exact (split_on_not_nil _ _ Hsplit)|].
      rewrite IH. reflexivity.
    + unfold join_comma in *.
      destruct (split_on comma s) as [|p ps] eqn:Hsplit;
        [exfalso; exact (split_on_not_nil _ _ Hsplit)|].
      rewrite <- IH. destruct ps; reflexivity.
  - revert piece. induction pieces as [|next pieces IH]; intros piece Hfree.
    + inversion Hfree; subst. apply split_on_comma_free. assumption.
    + inversion Hfree as [|? ? Hpiece Hrest]; subst.
      unfold join_comma in *.
      change (String.concat (String comma EmptyString) (piece :: next :: pieces))
        with (String.app piece (String comma (String.concat (String comma EmptyString) (next :: pieces)))).
      rewrite split_on_before_comma by assumption.
      rewrite (IH next Hrest). reflexivity.
Qed.

Lemma split_join_on_a_data_url :
  split_on comma (join_comma ["data:image/png;base64"; "iVBORw0KGgo="])
  = ["data:image/png;base64"; "iVBORw0KGgo="].
Proof.
  apply (proj2 (proj2 (split_join_round_trip EmptyString "data:image/png;base64" ["iVBORw0KGgo="]))).
  repeat constructor.
Defined.

Section PayloadFacts.

Variable File : Type.
Variable readAsDataURL : File -> option string.
Variable identifyLandmark : option string -> JsError + MountainInfo.

Local Abbreviation upload := (handleFileUpload File readAsDataURL identifyLandmark).

(** X2. The identification service is called with the text between the
    first comma of the data URL and the next one (the whole rest when there
    is no other comma); when the text that was read has no comma at all,
    the service is still called, with [undefined]. *)
Theorem upload_sends_the_text_after_the_comma
    (w : World) (files : list File) (file : File) (fullBase64 : string) :
  array_get files 0 = Some file ->
  readAsDataURL file = Some fullBase64 ->
  let w' := exec (upload (Some files)) w in
  (forall header payload rest : string,
     fullBase64 = String.app header (String comma (String.app payload rest)) ->
     comma_free header = true ->
     comma_free payload = true ->
     rest = EmptyString \/ (exists more, rest = String comma more) ->
     Call (identifyLandmark_call (Some payload)) ∈ trace w')
  /\ (comma_free fullBase64 = true ->
      Call (identifyLandmark_call None) ∈ trace w').
Proof.
  intros Hfile Hread w'.
  destruct (upload_run File readAsDataURL identifyLandmark w files file fullBase64 Hfile Hread)
    as (Htrace & _).
  fold w' in Htrace. rewrite Htrace. clear Htrace. split.
  - intros header payload rest -> Hheader Hpayload Hrest.
    rewrite split_on_before_comma by assumption.
    assert (Hsplit : exists others, split_on comma (String.app payload rest) = payload :: others).
    { destruct Hrest as [-> | [more ->]].
      - exists []. rewrite append_empty. apply split_on_comma_free. assumption.
      - eexists. apply split_on_before_comma. assumption. }
    destruct Hsplit as [others ->]. simpl. set_solver.
  - intros Hfree. rewrite (split_on_comma_free _ Hfree). simpl. set_solver.
Qed.

End PayloadFacts.

(** X2 on the picture of the examples. *)
Lemma upload_sends_the_base64_text :
  Call (identifyLandmark_call (Some "iVBORw0KGgo="))
  ∈ trace (exec (handleFileUpload unit read_picture classifies (Some [tt])) (start None)).
Proof.
  apply (proj1 (upload_sends_the_text_after_the_comma unit read_picture classifies
                  (start None) [tt] tt picture eq_refl eq_refl)
           "data:image/png;base64" "iVBORw0KGgo=" EmptyString);
    [reflexivity | reflexivity | reflexivity | left; reflexivity].
Defined.

(** ** Startup fetches: the other paths *)

Lemma length_substring_prefix (n : nat) (s : string) :
  String.length (String.substring 0 n s) = Nat.min n (String.length s).
Proof.
  revert s. induction n as [|n IH]; intros [|c s]; simpl; try reflexivity.
  rewrite IH. reflexivity.
Qed.

Lemma substring_prefix_append (n : nat) (s : string) :
  exists rest, s = String.app (String.substring 0 n s) rest.
Proof.
  revert s. induction n as [|n IH]; intros [|c s]; simpl.
  - exists EmptyString. reflexivity.
  - exists (String c s). reflexivity.
  - exists EmptyString. reflexivity.
  - destruct (IH s) as [rest Hrest]. exists rest.
    rewrite append_cons, <- Hrest. reflexivity.
Qed.

Section StartupPathFacts.

Variable getVillageInsights : string -> JsError + VillageInfo.
Variable getSearchInfo : string -> JsError + SearchResult.

Local Abbreviation load := (loadVillageData getVillageInsights getSearchInfo).

(** X3. [loadVillageData] never throws, whichever way the two fetches
    settle; [setLoading(true)] is the first call it records and
    [setLoading(false)] the last, each exactly once; the flag ends false. *)
Theorem load_sets_then_clears_loading (w : World) (name : string) :
  let w' := exec (load name) w in
  let recorded := drop (length (trace w)) (trace w') in
  outcome (load name) w = inr tt
  /\ head recorded = Some (SetLoading true)
  /\ List.last recorded (SetLoading true) = SetLoading false
  /\ occurrences (is_SetLoading true) recorded = 1%nat
  /\ occurrences (is_SetLoading false) recorded = 1%nat
  /\ loading (app w') = false.
Proof.
  intros w' recorded. subst recorded w'.
  unfold loadVillageData. run_handler. fold weather_query.
  destruct (getVillageInsights name) as [err|data]; run_handler;
    [| destruct (getSearchInfo weather_query) as [err|found]; run_handler ];
    rewrite <- !app_assoc, drop_app_length; repeat split.
Qed.

(** X4. The insight service is called once, with the name given; the
    weather search is called only after the insight fetch has succeeded,
    then once, and with the same fixed query whatever the name; no other
    service is called. *)
Theorem load_calls_search_only_after_insight (w : World) (name : string) :
  let w' := exec (load name) w in
  List.filter is_Call (drop (length (trace w)) (trace w')) =
  match getVillageInsights name with
  | inl _ => [Call (getVillageInsights_call name)]
  | inr _ => [Call (getVillageInsights_call name);
              Call (getSearchInfo_call "current weather in Takam Nepal Myagdi")]
  end.
Proof.
  intros w'. subst w'.
  unfold loadVillageData. run_handler.
  destruct (getVillageInsights name) as [err|data]; run_handler;
    [| destruct (getSearchInfo _) as [err|found]; run_handler ];
    rewrite <- !app_assoc, drop_app_length; reflexivity.
Qed.

(** X5. When both fetches succeed, the village state is the insight that
    was fetched, and the weather state has the temperature 16 and, as its
    description, the first 100 characters of the text found, followed by
    three dots: never more than 103 characters, beginning like the text. *)
Theorem load_success_stores_village_and_weather
    (w : World) (name : string) (data : VillageInfo) (found : SearchResult) :
  getVillageInsights name = inr data ->
  getSearchInfo "current weather in Takam Nepal Myagdi" = inr found ->
  let w' := exec (load name) w in
  village (app w') = Some data
  /\ exists d : WeatherData,
       weatherData (app w') = Some d
       /\ temp d = 16%float
       /\ desc d = String.app (String.substring 0 100 (text found)) "..."
       /\ String.length (desc d) = (Nat.min 100 (String.length (text found)) + 3)%nat
       /\ (String.length (desc d) <= 103)%nat
       /\ (exists rest, text found = String.app (String.substring 0 100 (text found)) rest).
Proof.
  intros Hinsight Hsearch w'. subst w'.
  unfold loadVillageData. run_handler. rewrite Hinsight. run_handler.
  rewrite Hsearch. run_handler. split; [reflexivity|].
  eexists. split; [reflexivity|]. simpl temp. simpl desc.
  split; [reflexivity|]. split; [reflexivity|].
  rewrite length_append, length_substring_prefix.
  change (String.length "...") with 3%nat.
  split; [reflexivity|]. split; [lia | apply substring_prefix_append].
Qed.

End StartupPathFacts.

(** X5 on a freshly loaded page, with a short text. *)
Lemma load_success_on_fresh_page :
  weatherData (app (exec (loadVillageData insight_ok search_ok "Takam Village, Myagdi")
                      (start None)))
  = Some {| temp := 16; desc := "Clear skies over Myagdi..." |}.
Proof.
  destruct (load_success_stores_village_and_weather insight_ok search_ok (start None)
              "Takam Village, Myagdi" takam {| text := "Clear skies over Myagdi" |}
              eq_refl eq_refl)
    as (_ & [t d] & Hweather & Htemp & Hdesc & _).
  simpl in Htemp, Hdesc. rewrite Hweather, Htemp, Hdesc. reflexivity.
Defined.

(** ** What the state can hold *)

Section ProvenanceFacts.

Variable File : Type.
Variable readAsDataURL : File -> option string.
Variable identifyLandmark : option string -> JsError + MountainInfo.
Variable getVillageInsights : string -> JsError + VillageInfo.
Variable getSearchInfo : string -> JsError + SearchResult.

Local Abbreviation handle_event :=
  (handle File readAsDataURL identifyLandmark getVillageInsights getSearchInfo).
Local Abbreviation run_events :=
  (run File readAsDataURL identifyLandmark getVillageInsights getSearchInfo).
Local Abbreviation sound :=
  (from_collaborators readAsDataURL identifyLandmark getVillageInsights getSearchInfo).

(** The fields of the state after the mount, by how the fetches settle. *)
Lemma mount_fields (w : World) :
  let s' := app (exec (handle_event (Mounted File)) w) in
  landmark s' = landmark (app w)
  /\ previewImage s' = previewImage (app w)
  /\ match getVillageInsights "Takam Village, Myagdi", getSearchInfo weather_query with
     | inl _, _ => village s' = village (app w) /\ weatherData s' = weatherData (app w)
     | inr data, inl _ => village s' = Some data /\ weatherData s' = weatherData (app w)
     | inr data, inr found =>
         village s' = Some data /\ weatherData s' = Some (weather_of found)
     end.
Proof.
  simpl handle. unfold App_effect_load, App_effect_watch, loadVillageData,
    navigator_geolocation, watchPosition. run_handler. fold weather_query.
  destruct (getVillageInsights _) as [err|data]; run_handler;
    [| destruct (getSearchInfo weather_query) as [err|found]; run_handler ];
    destruct (geolocation w) eqn:Hgeo; run_handler; rewrite ?Hgeo;
    repeat split.
Qed.

(** The fields of the state after a change event of the file input. *)
Lemma upload_fields (w : World) (files : option (list File)) :
  let s' := app (exec (handle_event (FileChosen File files)) w) in
  village s' = village (app w)
  /\ weatherData s' = weatherData (app w)
  /\ (previewImage s' = previewImage (app w)
      \/ exists file p, readAsDataURL file = Some p /\ previewImage s' = Some p)
  /\ (landmark s' = landmark (app w)
      \/ exists base64Data info,
           identifyLandmark base64Data = inr info /\ landmark s' = Some info).
Proof.
  simpl handle. unfold exec, handleFileUpload.
  destruct files as [fs|]; simpl; [| repeat split; auto].
  destruct (array_get fs 0) as [file|]; simpl; [| repeat split; auto].
  erewrite bind_run by reflexivity.
  destruct (readAsDataURL file) as [fullBase64|] eqn:Hread; [| repeat split; auto].
  unfold reader_onload. run_handler.
  destruct (identifyLandmark _) as [err|info] eqn:Hidentify; run_handler;
    repeat split; eauto.
Qed.

Lemma provenance_same_fields (s s' : AppState) :
  landmark s' = landmark s ->
  previewImage s' = previewImage s ->
  village s' = village s ->
  weatherData s' = weatherData s ->
  sound s -> sound s'.
Proof.
  unfold from_collaborators. intros -> -> -> ->. exact (fun H => H).
Qed.

Lemma handle_keeps_provenance (ev : ShellEvent File) (w : World) :
  sound (app w) -> sound (app (exec (handle_event ev) w)).
Proof.
  intros Hsound. pose proof Hsound as (Hlandmark & Hpreview & Hvillage & Hweather).
  destruct ev as [ | files | pos | position | error | t | ].
  - (* mount *)
    destruct (mount_fields w) as (Hl & Hp & Hfetched).
    unfold from_collaborators. rewrite Hl, Hp. split; [assumption|]. split; [assumption|].
    destruct (getVillageInsights _) as [err|data] eqn:Hinsight.
    + destruct Hfetched as [-> ->]. split; [exact Hvillage | exact Hweather].
    + destruct (getSearchInfo weather_query) as [err|found] eqn:Hsearch;
        destruct Hfetched as [-> ->].
      * split; [intros ? [= <-]; reflexivity|].
        intros d Hd. split; [discriminate|]. apply (Hweather d Hd).
      * split; [intros ? [= <-]; reflexivity|].
        intros d [= <-]. split; [discriminate|]. exists found. split; reflexivity.
  - (* upload *)
    destruct (upload_fields w files) as (Hv & Hw & Hp & Hl).
    unfold from_collaborators. rewrite Hv, Hw. repeat split.
    + intros info Hinfo. destruct Hl as [Hl | (d & info' & Hok & Hl)];
        rewrite Hl in Hinfo; [eauto|]. injection Hinfo as <-. eauto.
    + intros p Hp'. destruct Hp as [Hp | (file & p' & Hread & Hp)];
        rewrite Hp in Hp'; [eauto|]. injection Hp' as <-. eauto.
    + exact Hvillage.
    + apply (Hweather d H).
    + apply (Hweather d H).
  - apply (provenance_same_fields (app w)); [.. | exact Hsound];
      simpl handle; unfold exec, getCurrentPosition_success; simpl;
      destruct (coords_altitude pos); reflexivity.
  - apply (provenance_same_fields (app w)); [.. | exact Hsound];
      simpl handle; unfold exec, watchPosition_success; simpl;
      destruct (coords_altitude position); reflexivity.
  - apply (provenance_same_fields (app w)); [.. | exact Hsound]; reflexivity.
  - apply (provenance_same_fields (app w)); [.. | exact Hsound]; reflexivity.
  - (* scan next *)
    unfold from_collaborators. simpl.
    split; [discriminate|]. split; [discriminate|]. split; [exact Hvillage | exact Hweather].
Qed.

Lemma run_keeps_provenance (evs : list (ShellEvent File)) (w : World) :
  sound (app w) -> sound (app (run_events evs w)).
Proof.
  revert w. induction evs as [|ev evs IH]; intros w Hsound; simpl; [assumption|].
  apply IH, handle_keeps_provenance, Hsound.
Qed.

(** X6. Whatever happens to a loaded page, a landmark that is stored is one
    the identification service returned, a preview image is the text of a
    file that was read, a stored village is what the insight service
    returns for the fixed village name, and a stored weather record comes
    from the fixed weather search, with the temperature 16 whatever was
    found, and is there only together with a village. *)
Theorem stored_values_come_from_the_collaborators
    (evs : list (ShellEvent File)) (g : option Geolocation) :
  let s := app (run_events evs (start g)) in
  (forall info, landmark s = Some info ->
     exists base64Data, identifyLandmark base64Data = inr info)
  /\ (forall p, previewImage s = Some p -> exists file, readAsDataURL file = Some p)
  /\ (forall data, village s = Some data ->
        getVillageInsights "Takam Village, Myagdi" = inr data)
  /\ (forall d, weatherData s = Some d ->
        temp d = 16%float
        /\ village s <> None
        /\ exists found,
             getSearchInfo "current weather in Takam Nepal Myagdi" = inr found
             /\ desc d = String.app (String.substring 0 100 (text found)) "...").
Proof.
  intros s.
  destruct (run_keeps_provenance evs (start g)) as (Hl & Hp & Hv & Hw).
  { repeat split; discriminate. }
  fold s in Hl, Hp, Hv, Hw. split; [exact Hl|]. split; [exact Hp|]. split; [exact Hv|].
  intros d Hd. destruct (Hw d Hd) as (Hvillage & found & Hfound & ->).
  split; [reflexivity|]. split; [assumption|]. exists found. split; [assumption | reflexivity].
Qed.

End ProvenanceFacts.

(** X6 after a mount and an upload, with services that answer. *)
Lemma stored_landmark_after_upload :
  landmark (app (run unit read_picture classifies insight_ok search_ok
                   [Mounted unit; FileChosen unit (Some [tt])] (start None)))
  = Some poon_hill
  /\ exists base64Data, classifies base64Data = inr poon_hill.
Proof.
  split; [reflexivity|].
  destruct (stored_values_come_from_the_collaborators unit read_picture classifies
              insight_ok search_ok [Mounted unit; FileChosen unit (Some [tt])] None)
    as (Hlandmark & _).
  exact (Hlandmark poon_hill eq_refl).
Defined.

(** ** Live location: sequences of readings *)

Section ReadingFacts.

Variable File : Type.
Variable readAsDataURL : File -> option string.
Variable identifyLandmark : option string -> JsError + MountainInfo.
Variable getVillageInsights : string -> JsError + VillageInfo.
Variable getSearchInfo : string -> JsError + SearchResult.

Local Abbreviation handle_event :=
  (handle File readAsDataURL identifyLandmark getVillageInsights getSearchInfo).
Local Abbreviation run_events :=
  (run File readAsDataURL identifyLandmark getVillageInsights getSearchInfo).

Lemma run_app (evs1 evs2 : list (ShellEvent File)) (w : World) :
  run_events (evs1 ++ evs2) w = run_events evs2 (run_events evs1 w).
Proof.
  revert w. induction evs1 as [|ev evs1 IH]; intros w; simpl; [reflexivity | apply IH].
Qed.

(** X7. The last reading wins: after any events, a position callback (of
    the one-shot request or of the watch) and then events without a
    reading, the stored location is exactly the latitude and longitude of
    that reading, whatever was stored before; and if the reading carried an
    altitude and no later reading carries one, the stored altitude is its
    rounding. *)
Theorem last_reading_wins
    (before after : list (ShellEvent File)) (ev : ShellEvent File) (c : Coords) (w : World) :
  reading File ev = Some c ->
  let s := app (run_events (before ++ ev :: after) w) in
  (Forall (fun ev' => reading File ev' = None) after ->
   currentLocation s = {| loc_lat := latitude c; loc_lng := longitude c |})
  /\ (forall r : float,
        coords_altitude c = Some r ->
        Forall (fun ev' => reported_altitude ev' = None) after ->
        currentAltitude s = Some (Math_round r)).
Proof.
  intros Hreading s. subst s. rewrite run_app. simpl run. split.
  - intros Hafter.
    rewrite (location_without_readings File readAsDataURL identifyLandmark
               getVillageInsights getSearchInfo after _ Hafter).
    rewrite (handle_stores_reading File readAsDataURL identifyLandmark
               getVillageInsights getSearchInfo ev c _ Hreading).
    reflexivity.
  - intros r Hr Hafter.
    rewrite (altitude_without_reports File readAsDataURL identifyLandmark
               getVillageInsights getSearchInfo after _ Hafter).
    rewrite (handle_stores_reading File readAsDataURL identifyLandmark
               getVillageInsights getSearchInfo ev c _ Hreading).
    simpl. rewrite Hr. reflexivity.
Qed.

(** X8. Without the geolocation service ([geolocation] is not in
    [navigator]), mounting the shell makes no request to it: nothing but
    the village load happens, the second effect returns no cleanup, and
    the teardown does nothing. *)
Theorem mount_without_geolocation (w : World) :
  geolocation w = None ->
  let w' := exec (handle_event (Mounted File)) w in
  w' = exec (loadVillageData getVillageInsights getSearchInfo "Takam Village, Myagdi") w
  /\ List.filter is_geolocation_request (trace w') =
     List.filter is_geolocation_request (trace w)
  /\ (forall w0 : World,
        geolocation w0 = None ->
        App_effect_watch w0 = (inr None, w0)
        /\ App_teardown None w0 = (inr tt, w0)).
Proof.
  intros Hgeo w'. subst w'.
  assert (Hload : geolocation (exec (loadVillageData getVillageInsights getSearchInfo
                                       "Takam Village, Myagdi") w) = None).
  { destruct (load_run getVillageInsights getSearchInfo w "Takam Village, Myagdi")
      as (-> & _). exact Hgeo. }
  assert (Hmount : exec (handle_event (Mounted File)) w =
                   exec (loadVillageData getVillageInsights getSearchInfo
                           "Takam Village, Myagdi") w).
  { simpl handle. unfold App_effect_load, App_effect_watch, navigator_geolocation.
    unfold exec in *.
    destruct (loadVillageData getVillageInsights getSearchInfo "Takam Village, Myagdi" w)
      as [[err|[]] w1] eqn:Hrun; unfold mbind, M_bind; rewrite Hrun; simpl in *;
      [reflexivity|].
    rewrite Hload. unfold mret, M_ret. simpl. rewrite Hload. reflexivity. }
  split; [exact Hmount|]. split.
  - rewrite Hmount.
    destruct (load_run getVillageInsights getSearchInfo w "Takam Village, Myagdi")
      as (_ & _ & _ & Hcases).
    simpl in Hcases.
    destruct (getVillageInsights _) as [err|data];
      [| destruct (getSearchInfo weather_query) as [err|found]];
      destruct Hcases as [-> _]; rewrite List.filter_app; simpl; apply app_nil_r.
  - intros w0 Hw0. unfold App_effect_watch, navigator_geolocation, mbind, M_bind.
    rewrite Hw0. split; reflexivity.
Qed.

End ReadingFacts.

(** X7 on a freshly loaded page: two readings, then a tab click. *)
Lemma last_reading_on_fresh_page :
  currentLocation (app (run unit read_picture classifies insight_ok search_down
                          ([PositionOnce unit {| latitude := 28.4; longitude := 83.3;
                                                 coords_altitude := Some 1650.4%float |}]
                           ++ PositionWatched unit {| latitude := 28.5; longitude := 83.25;
                                                      coords_altitude := None |}
                           :: [TabClicked unit trek])
                          (start None)))
  = {| loc_lat := 28.5; loc_lng := 83.25 |}.
Proof.
  apply (proj1 (last_reading_wins unit read_picture classifies insight_ok search_down
                  [PositionOnce unit {| latitude := 28.4; longitude := 83.3;
                                        coords_altitude := Some 1650.4%float |}]
                  [TabClicked unit trek]
                  (PositionWatched unit {| latitude := 28.5; longitude := 83.25;
                                           coords_altitude := None |})
                  {| latitude := 28.5; longitude := 83.25; coords_altitude := None |}
                  (start None) eq_refl)).
  repeat constructor.
Defined.

(** X8 on a freshly loaded page without the service. *)
Lemma mount_without_geolocation_on_fresh_page :
  List.filter is_geolocation_request
    (trace (exec (handle unit read_picture classifies insight_ok search_down (Mounted unit))
              (start None)))
  = [].
Proof.
  destruct (mount_without_geolocation unit read_picture classifies insight_ok search_down
              (start None) eq_refl)
    as (_ & Hnone & _).
  exact Hnone.
Defined.

(** ** The scanner tab across several actions *)

Section ScannerFacts.

Variable File : Type.
Variable readAsDataURL : File -> option string.
Variable identifyLandmark : option string -> JsError + MountainInfo.

Local Abbreviation upload := (handleFileUpload File readAsDataURL identifyLandmark).

(** X9. After an upload that was identified, the result card shows the
    landmark with the uploaded picture; [Scan Next Landmark] then clears
    both the landmark and the preview image, so that no card is shown, and
    leaves the scanner tab active and everything else as it was. *)
Theorem scan_next_empties_the_scanner
    (w : World) (files : list File) (file : File) (c : ascii) (rest : string)
    (info : MountainInfo) :
  array_get files 0 = Some file ->
  readAsDataURL file = Some (String c rest) ->
  identifyLandmark (array_get (split_on comma (String c rest)) 1) = inr info ->
  let w1 := exec (upload (Some files)) w in
  let w2 := exec scan_next w1 in
  scanner_card (app w1) = Some (String c rest, info)
  /\ scanner_card (app w2) = None
  /\ app w2 = {| activeTab := scanner; landmark := None; village := village (app w);
                 loading := false; weatherData := weatherData (app w);
                 currentAltitude := currentAltitude (app w);
                 currentLocation := currentLocation (app w);
                 previewImage := None |}.
Proof.
  intros Hfile Hread Hok w1 w2.
  destruct (upload_run File readAsDataURL identifyLandmark w files file _ Hfile Hread)
    as (_ & Happ & _).
  fold w1 in Happ. rewrite Hok in Happ. subst w2. unfold exec, scan_next. run_handler.
  rewrite Happ. repeat split.
Qed.

(** X10. A failed upload after an identified one.  With a landmark stored
    the scanner tab offers no file input, so the second picture is chosen
    on the home tab.  The failed upload leaves the home tab active and the
    earlier landmark stored, with the picture of the failed upload as the
    preview image; back on the scanner tab, the result card shows the
    earlier landmark under the new picture. *)
Theorem failed_upload_shows_old_landmark_under_new_picture
    (w : World) (files1 files2 : list File) (file1 file2 : File)
    (picture1 : string) (c : ascii) (rest : string) (info : MountainInfo) (err : JsError) :
  file_input_shown (app w) = true ->
  array_get files1 0 = Some file1 ->
  readAsDataURL file1 = Some picture1 ->
  identifyLandmark (array_get (split_on comma picture1) 1) = inr info ->
  array_get files2 0 = Some file2 ->
  readAsDataURL file2 = Some (String c rest) ->
  identifyLandmark (array_get (split_on comma (String c rest)) 1) = inl err ->
  let w1 := exec (upload (Some files1)) w in
  let w2 := exec (setActiveTab home) w1 in
  let w3 := exec (upload (Some files2)) w2 in
  let w4 := exec (setActiveTab scanner) w3 in
  file_input_shown (app w1) = false
  /\ file_input_shown (app w2) = true
  /\ activeTab (app w3) = home
  /\ landmark (app w3) = Some info
  /\ previewImage (app w3) = Some (String c rest)
  /\ scanner_card (app w3) = None
  /\ scanner_card (app w4) = Some (String c rest, info).
Proof.
  intros _ Hfile1 Hread1 Hok Hfile2 Hread2 Hfail w1 w2 w3 w4.
  destruct (upload_run File readAsDataURL identifyLandmark w files1 file1 _ Hfile1 Hread1)
    as (_ & Happ1 & _).
  destruct (upload_run File readAsDataURL identifyLandmark w2 files2 file2 _ Hfile2 Hread2)
    as (_ & Happ3 & _).
  fold w1 in Happ1. fold w3 in Happ3. rewrite Hok in Happ1. rewrite Hfail in Happ3.
  assert (Happ2 : app w2 =
                  {| activeTab := home; landmark := Some info; village := village (app w);
                     loading := false; weatherData := weatherData (app w);
                     currentAltitude := currentAltitude (app w);
                     currentLocation := currentLocation (app w);
                     previewImage := Some picture1 |}).
  { subst w2. unfold exec, setActiveTab. run_handler. rewrite Happ1. reflexivity. }
  rewrite Happ2 in Happ3. simpl in Happ3.
  assert (Happ4 : app w4 =
                  {| activeTab := scanner; landmark := Some info; village := village (app w);
                     loading := false; weatherData := weatherData (app w);
                     currentAltitude := currentAltitude (app w);
                     currentLocation := currentLocation (app w);
                     previewImage := Some (String c rest) |}).
  { subst w4. unfold exec, setActiveTab. run_handler. rewrite Happ3. reflexivity. }
  rewrite Happ1, Happ2, Happ3, Happ4. repeat split.
Qed.

End ScannerFacts.

(** X9 on a freshly loaded page. *)
Lemma scan_next_on_fresh_page :
  scanner_card (app (exec scan_next
                       (exec (handleFileUpload unit read_picture classifies (Some [tt]))
                          (start None))))
  = None.
Proof.
  destruct (scan_next_empties_the_scanner unit read_picture classifies (start None)
              [tt] tt "d"%char "ata:image/png;base64,iVBORw0KGgo=" poon_hill
              eq_refl eq_refl eq_refl)
    as (_ & Hcard & _).
  exact Hcard.
Defined.

(** X10 on a freshly loaded page: the first picture is identified, the
    second, chosen on the home tab, is not. *)
Lemma failed_upload_after_poon_hill :
  scanner_card
    (app (exec (setActiveTab scanner)
            (exec (handleFileUpload bool read_two_pictures knows_one_picture (Some [false]))
               (exec (setActiveTab home)
                  (exec (handleFileUpload bool read_two_pictures knows_one_picture
                           (Some [true]))
                     (start None))))))
  = Some (other_picture, poon_hill).
Proof.
  destruct (failed_upload_shows_old_landmark_under_new_picture
              bool read_two_pictures knows_one_picture (start None)
              [true] [false] true false picture
              "d"%char "ata:image/jpeg;base64,/9j/4AAQSkZJRg==" poon_hill
              (ServiceError "Could not identify landmark")
              eq_refl eq_refl eq_refl eq_refl eq_refl eq_refl eq_refl)
    as (_ & _ & _ & _ & _ & _ & Hcard).
  exact Hcard.
Defined.

(** ** The map view: other paths *)

Lemma effect_on_mounted (w : World) (el : nat) (lat lng : float) (trail : list TrekPoint) :
  SatelliteMapView_effect lat lng trail (exec (mount_view (Some el)) w) =
  (inr tt,
   after_lifetime {| lt_element := el; lt_first := (lat, lng); lt_updates := [];
                     lt_trail := trail |} w).
Proof.
  pose proof (first_render_run w el lat lng trail) as Hrun.
  change ((mount_view (Some el);; SatelliteMapView_effect lat lng trail) w)
    with (SatelliteMapView_effect lat lng trail (exec (mount_view (Some el)) w)) in Hrun.
  rewrite Hrun. reflexivity.
Qed.

(** One life of the view, as a whole. *)
Lemma view_lifetime_run (l : Lifetime) (w : World) :
  view_lifetime l w = (inr tt, after_lifetime l w).
Proof.
  destruct l as [el [lat lng] updates trail]. unfold view_lifetime. simpl.
  erewrite bind_run by reflexivity.
  erewrite bind_run by apply effect_on_mounted.
  set (os := objects (leaflet w)).
  assert (Hsplit : forall pos : LatLng,
            os ++ TileLayer imagery_url 19
                  :: Marker pos userIcon (Some 1000%float)
                  :: Polyline (map waypoint_latLng trail) trailStyle
                  :: map waypoint_marker trail
            = (os ++ [TileLayer imagery_url 19])
              ++ Marker pos userIcon (Some 1000%float)
              :: Polyline (map waypoint_latLng trail) trailStyle
              :: map waypoint_marker trail).
  { intros pos. rewrite <- app_assoc. reflexivity. }
  erewrite (live_updates_run trail updates _ (length (maps (leaflet w)))
              (length os + 1)%nat (latLng lat lng) userIcon (Some 1000%float)).
  - unfold after_lifetime, with_leaflet. simpl. fold os.
    rewrite !Hsplit.
    replace (length os + 1)%nat with (length (os ++ [TileLayer imagery_url 19]))
      by (rewrite length_app; reflexivity).
    rewrite insert_app_r_alt by lia. rewrite Nat.sub_diag. reflexivity.
  - reflexivity.
  - reflexivity.
  - unfold after_lifetime. simpl. fold os. unfold last_position. simpl.
    rewrite Hsplit. apply list_lookup_middle. rewrite length_app. reflexivity.
Qed.

Lemma effect_without_element (w : World) (lat lng : float) (trail : list TrekPoint) :
  refs w = no_refs ->
  SatelliteMapView_effect lat lng trail w = (inr tt, w).
Proof.
  intros Hrefs. unfold SatelliteMapView_effect.
  erewrite bind_run by reflexivity. rewrite Hrefs. simpl.
  erewrite bind_run by reflexivity.
  erewrite bind_run by reflexivity. rewrite Hrefs. reflexivity.
Qed.

Lemma live_updates_without_element (updates : list (float * float))
    (trail : list TrekPoint) (w : World) :
  refs w = no_refs ->
  live_updates updates trail w = (inr tt, w).
Proof.
  intros Hrefs. induction updates as [|[lat lng] updates IH]; simpl; [reflexivity|].
  erewrite bind_run by (apply effect_without_element; exact Hrefs). exact IH.
Qed.

(** X11. A view mounted without an element ([mapRef.current] is [null])
    never creates anything: the first effect, every later live-location
    update, Recenter and Fit-trail all return normally and leave the widget,
    the refs and the shell as they were. *)
Theorem view_without_element_does_nothing
    (w : World) (lat lng : float) (updates : list (float * float)) (trail : list TrekPoint) :
  let mounted := exec (mount_view None) w in
  (mount_view None;;
   SatelliteMapView_effect lat lng trail;;
   live_updates updates trail;;
   handleRecenter lat lng;;
   showEntireTrail) w = (inr tt, mounted)
  /\ refs mounted = no_refs
  /\ leaflet mounted = leaflet w
  /\ app mounted = app w /\ trace mounted = trace w /\ geolocation mounted = geolocation w.
Proof.
  intros mounted. split; [| repeat split].
  erewrite bind_run by reflexivity. fold (exec (mount_view None) w). fold mounted.
  erewrite bind_run by (apply effect_without_element; reflexivity).
  erewrite bind_run by (apply live_updates_without_element; reflexivity).
  reflexivity.
Qed.

(** X12. The trail prop is read by the first render only: a later render
    with another location and another trail moves the user marker to the
    new location and does the same as with the first trail; the polyline
    and the waypoint markers stay those of the trail of the first render,
    and the map is not touched. *)
Theorem later_renders_ignore_the_trail_prop
    (w : World) (el : nat) (lat lng lat' lng' : float) (trail trail' : list TrekPoint) :
  let w1 := exec (mount_view (Some el);; SatelliteMapView_effect lat lng trail) w in
  let w2 := exec (SatelliteMapView_effect lat' lng' trail') w1 in
  let n := length (objects (leaflet w)) in
  SatelliteMapView_effect lat' lng' trail' w1 = SatelliteMapView_effect lat' lng' trail w1
  /\ outcome (SatelliteMapView_effect lat' lng' trail') w1 = inr tt
  /\ objects (leaflet w2) !! (n + 1)%nat
     = Some (Marker (latLng lat' lng') userIcon (Some 1000%float))
  /\ objects (leaflet w2) !! (n + 2)%nat
     = Some (Polyline (map waypoint_latLng trail) trailStyle)
  /\ drop (n + 3) (objects (leaflet w2)) = map waypoint_marker trail
  /\ take (n + 1) (objects (leaflet w2)) = take (n + 1) (objects (leaflet w1))
  /\ maps (leaflet w2) = maps (leaflet w1)
  /\ refs w2 = refs w1.
Proof.
  intros w1 w2 n. subst w2 w1 n. unfold exec, outcome. rewrite first_render_run. simpl.
  set (os := objects (leaflet w)).
  assert (Hmarker : (os ++ rendered_layers lat lng trail) !! (length os + 1)%nat
                    = Some (Marker (latLng lat lng) userIcon (Some 1000%float))).
  { unfold rendered_layers. rewrite lookup_app_r by lia.
    replace (length os + 1 - length os)%nat with 1%nat by lia. reflexivity. }
  assert (Hrun : forall t : list TrekPoint,
            SatelliteMapView_effect lat' lng' t
              {| app := app w; trace := trace w; geolocation := geolocation w;
                 refs := rendered_refs el w;
                 leaflet :=
                   {| maps := maps (leaflet w)
                              ++ [rendered_map el lat lng trail (length os)];
                      objects := os ++ rendered_layers lat lng trail |} |}
            = (inr tt,
               {| app := app w; trace := trace w; geolocation := geolocation w;
                  refs := rendered_refs el w;
                  leaflet :=
                    {| maps := maps (leaflet w)
                               ++ [rendered_map el lat lng trail (length os)];
                       objects := <[ (length os + 1)%nat :=
                                       Marker (latLng lat' lng') userIcon (Some 1000%float) ]>
                                    (os ++ rendered_layers lat lng trail) |} |})).
  { intros t. erewrite update_run; [| reflexivity | reflexivity | exact Hmarker].
    reflexivity. }
  rewrite !Hrun. simpl.
  assert (Hlen : (length os + 1 < length (os ++ rendered_layers lat lng trail))%nat).
  { rewrite length_app. unfold rendered_layers. simpl. lia. }
  split; [reflexivity|]. split; [reflexivity|]. split; [| split; [| split; [| split]]].
  - apply list_lookup_insert_eq. exact Hlen.
  - rewrite list_lookup_insert_ne by lia.
    unfold rendered_layers. rewrite lookup_app_r by lia.
    replace (length os + 2 - length os)%nat with 2%nat by lia. reflexivity.
  - rewrite drop_insert_lt by lia.
    unfold rendered_layers. rewrite drop_app_ge by lia.
    replace (length os + 3 - length os)%nat with 3%nat by lia. reflexivity.
  - rewrite take_insert_ge by lia. reflexivity.
  - split; reflexivity.
Qed.

(** X13. After the first render and any live-location updates, Recenter
    and Fit-trail return normally; the camera calls the view's map has then
    received are, in order: [setView] to the first location at zoom 13,
    [fitBounds] to the trail, [flyTo] the location of the last render at
    zoom 15 and [flyToBounds] to the bounds of the trail polyline, both fits
    with the padding 50. *)
Theorem camera_actions_after_updates (w : World) (l : Lifetime) (lat lng : float) :
  let w1 := exec (view_lifetime l) w in
  let w2 := exec (handleRecenter lat lng;; showEntireTrail) w1 in
  let trail_bounds := bounds_of (map waypoint_latLng (lt_trail l)) in
  outcome (handleRecenter lat lng;; showEntireTrail) w1 = inr tt
  /\ (camera <$> maps (leaflet w2) !! length (maps (leaflet w)))
     = Some [SetView (latLng (fst (lt_first l)) (snd (lt_first l))) 13;
             FitBounds trail_bounds (50, 50)%float;
             FlyTo (latLng lat lng) 15;
             FlyToBounds trail_bounds (50, 50)%float]
  /\ objects (leaflet w2) = objects (leaflet w1)
  /\ refs w2 = refs w1.
Proof.
  intros w1 w2 trail_bounds. subst w2 w1. unfold exec, outcome.
  rewrite view_lifetime_run. simpl.
  unfold handleRecenter, showEntireTrail.
  erewrite bind_run.
  2: { erewrite bind_run by reflexivity. simpl.
       erewrite bind_run
         by (unfold flyTo; erewrite camera_call_last by reflexivity; reflexivity).
       reflexivity. }
  erewrite bind_run by reflexivity. tidy.
  erewrite bind_run.
  2: { replace (length (objects (leaflet w)) + 2)%nat
         with (length (objects (leaflet w)
                       ++ [TileLayer imagery_url 19;
                           Marker (last_position (lt_first l) (lt_updates l))
                             userIcon (Some 1000%float)]))
         by (rewrite length_app; reflexivity).
       apply (getBounds_at _ _ (map waypoint_marker (lt_trail l))
                (map waypoint_latLng (lt_trail l)) trailStyle).
       simpl. rewrite <- app_assoc. reflexivity. }
  erewrite bind_run
    by (unfold flyToBounds; erewrite camera_call_last by reflexivity; reflexivity).
  tidy. rewrite lookup_snoc. repeat split.
Qed.

Lemma view_lifetimes_run (ls : list Lifetime) (w : World) :
  view_lifetimes ls w = (inr tt, fold_left (fun w0 l => after_lifetime l w0) ls w).
Proof.
  revert w. induction ls as [|l ls IH]; intros w; simpl; [reflexivity|].
  erewrite bind_run by apply view_lifetime_run. apply IH.
Qed.

(** X14. The view never removes what it created: when the view is mounted
    again and again (the tab is left and entered), every life adds one map
    instance and its layers (three and one per waypoint) to the widget, and
    the maps and layers of the earlier lives stay in the widget as they
    were; the shell is not touched. *)
Theorem remounts_accumulate_maps (ls : list Lifetime) (w : World) :
  let w' := exec (view_lifetimes ls) w in
  outcome (view_lifetimes ls) w = inr tt
  /\ length (maps (leaflet w')) = (length (maps (leaflet w)) + length ls)%nat
  /\ length (objects (leaflet w')) =
       (length (objects (leaflet w))
        + sum_list (map (fun l => 3 + length (lt_trail l)) ls))%nat
  /\ maps (leaflet w) `prefix_of` maps (leaflet w')
  /\ objects (leaflet w) `prefix_of` objects (leaflet w')
  /\ app w' = app w /\ trace w' = trace w /\ geolocation w' = geolocation w.
Proof.
  intros w'. subst w'. unfold exec, outcome. rewrite view_lifetimes_run. simpl.
  split; [reflexivity|].
  revert w. induction ls as [|l ls IH]; intros w; simpl.
  - rewrite !Nat.add_0_r. repeat split; reflexivity.
  - destruct (IH (after_lifetime l w)) as (Hmaps & Hobjects & Hpm & Hpo & Happ & Htrace & Hgeo).
    rewrite Hmaps, Hobjects, Happ, Htrace, Hgeo. simpl.
    rewrite !length_app. simpl. rewrite length_map.
    split; [lia|]. split; [lia|].
    split; [etransitivity; [| exact Hpm]; apply prefix_app_r; reflexivity|].
    split; [etransitivity; [| exact Hpo]; apply prefix_app_r; reflexivity|].
    repeat split.
Qed.

(** The trek tab entered twice on the fixed trail: two maps, twenty layers. *)
Example two_lifetimes_on_the_trail :
  let l := {| lt_element := 0%nat; lt_first := (28.4230, 83.3333)%float;
              lt_updates := [(28.43, 83.32)%float]; lt_trail := MOCK_TREK_DATA |} in
  let w' := exec (view_lifetimes [l; l]) (start None) in
  length (maps (leaflet w')) = 2%nat /\ length (objects (leaflet w')) = 20%nat.
Proof. vm_compute. split; reflexivity. Qed.

(** ** Geodesy helper: composition and format *)

Lemma length_zeros (k : nat) : String.length (zeros k) = k.
Proof.
  unfold zeros. induction k as [|k IH]; [reflexivity|].
  change (Nat.iter (S k) (String.append "0") EmptyString)
    with (String "0" (Nat.iter k (String.append "0") EmptyString)).
  simpl String.length. rewrite IH. reflexivity.
Qed.

Lemma length_substring (a b : nat) (s : string) :
  (a + b <= String.length s)%nat -> String.length (String.substring a b s) = b.
Proof.
  revert b s. induction a as [|a IH]; intros b s Hle.
  - rewrite length_substring_prefix. lia.
  - destruct s as [|c s]; simpl in *; [lia|]. apply IH. lia.
Qed.

(** [toFixed] digits: a point, and exactly [f] characters after it. *)
Lemma fixed_digits_shape (n : Z) (f : nat) :
  (0 < f)%nat ->
  exists whole frac : string,
    fixed_digits n f = String.app whole (String.app "." frac)
    /\ (1 <= String.length whole)%nat
    /\ String.length frac = f.
Proof.
  intros Hf. unfold fixed_digits. destruct f as [|f]; [lia|].
  set (digits := NilEmpty.string_of_uint (N.to_uint (Z.to_N n))).
  set (m := if (String.length digits <=? S f)%nat
            then String.app (zeros (S f + 1 - String.length digits)) digits
            else digits).
  assert (Hm : (S f + 1 <= String.length m)%nat).
  { subst m. destruct (Nat.leb_spec (String.length digits) (S f)).
    - rewrite length_append, length_zeros. lia.
    - lia. }
  eexists _, _. split; [reflexivity|]. split.
  - rewrite length_substring_prefix. lia.
  - apply length_substring. lia.
Qed.

Section GeodesyShapeFacts.

Variable Number_toString : float -> string.
Variable distanceTo : LatLng -> LatLng -> float.

Lemma consecutive_pairs_snoc (points : list TrekPoint) (p q : TrekPoint) :
  consecutive_pairs (points ++ [p; q]) = consecutive_pairs (points ++ [p]) ++ [(p, q)].
Proof.
  induction points as [|a [|b rest] IH]; [reflexivity | reflexivity |].
  change (consecutive_pairs ((a :: b :: rest) ++ [p; q]))
    with ((a, b) :: consecutive_pairs ((b :: rest) ++ [p; q])).
  change (consecutive_pairs ((a :: b :: rest) ++ [p]))
    with ((a, b) :: consecutive_pairs ((b :: rest) ++ [p])).
  rewrite IH. reflexivity.
Qed.

(** X15. Adding a waypoint at the end of a trail adds exactly one leg: the
    loop's total for the longer trail is its total for the trail so far
    plus the distance from the old last point to the new one, and the
    label is that sum in kilometres. *)
Theorem appending_a_waypoint_adds_one_leg (points : list TrekPoint) (p q : TrekPoint) :
  exists total : float,
    distance_loop distanceTo (points ++ [p]) 0 0%float = inr total
    /\ distance_loop distanceTo (points ++ [p; q]) 0 0%float
       = inr (total + distanceTo (latLng (lat p) (lng p)) (latLng (lat q) (lng q)))%float
    /\ calculateTotalDistance Number_toString distanceTo (points ++ [p; q])
       = inr (toFixed Number_toString
                ((total + distanceTo (latLng (lat p) (lng p)) (latLng (lat q) (lng q)))
                 / 1000)%float 2).
Proof.
  exists (pairwise_distance_sum distanceTo (points ++ [p])).
  assert (Hlong : distance_loop distanceTo (points ++ [p; q]) 0 0%float
                  = inr (pairwise_distance_sum distanceTo (points ++ [p])
                         + distanceTo (latLng (lat p) (lng p)) (latLng (lat q) (lng q)))%float).
  { rewrite (distance_loop_sum distanceTo) by lia.
    change (Z.to_nat 0) with 0%nat. rewrite drop_0.
    rewrite consecutive_pairs_snoc, fold_left_app. reflexivity. }
  split; [rewrite (distance_loop_sum distanceTo) by lia; reflexivity|].
  split; [exact Hlong|].
  unfold calculateTotalDistance. rewrite Hlong. reflexivity.
Qed.

(** X16. Whenever the total in kilometres is a finite number below 10^21 in
    size, the label [calculateTotalDistance] returns is an optional minus
    sign, at least one character, a point and exactly two characters. *)
Theorem calculateTotalDistance_has_two_decimals (points : list TrekPoint) :
  let km := (pairwise_distance_sum distanceTo points / 1000)%float in
  is_nan km = false ->
  is_infinity km = false ->
  (1e21 <=? abs km)%float = false ->
  exists sign whole frac : string,
    calculateTotalDistance Number_toString distanceTo points
    = inr (String.app sign (String.app whole (String.app "." frac)))
    /\ (sign = EmptyString \/ sign = "-")
    /\ (1 <= String.length whole)%nat
    /\ String.length frac = 2%nat.
Proof.
  intros km Hnan Hinf Hsmall.
  assert (Hloop : distance_loop distanceTo points 0 0%float =
                  inr (pairwise_distance_sum distanceTo points)).
  { rewrite (distance_loop_sum distanceTo) by lia. reflexivity. }
  unfold calculateTotalDistance. rewrite Hloop. fold km.
  unfold toFixed.
  assert (Hsf : (exists s, Prim2SF km = S754_zero s)
                \/ (exists s m e, Prim2SF km = S754_finite s m e)).
  { unfold Prim2SF. rewrite Hnan, Hinf.
    destruct (PrimFloat.is_zero km); [left; eauto|].
    destruct (Z.frexp km) as [r ex].
    destruct (shr_fexp _ _ _ _ _) as [shr e']. destruct (shr_m shr); eauto. }
  destruct Hsf as [[s ->] | (s & m & e & ->)].
  - destruct (fixed_digits_shape 0 2 ltac:(lia)) as (whole & frac & -> & Hwhole & Hfrac).
    exists EmptyString, whole, frac. auto.
  - rewrite Hsmall.
    destruct (fixed_digits_shape (nearest_scaled m e 2) 2 ltac:(lia))
      as (whole & frac & -> & Hwhole & Hfrac).
    exists (if s then "-" else EmptyString), whole, frac.
    split; [reflexivity|]. split; [destruct s; auto | auto].
Qed.

End GeodesyShapeFacts.

(** X16 on the fixed trail, with the flat stand-in distance. *)
Lemma trail_label_has_two_decimals :
  exists sign whole frac : string,
    calculateTotalDistance no_toString flat_distance MOCK_TREK_DATA
    = inr (String.app sign (String.app whole (String.app "." frac)))
    /\ (sign = EmptyString \/ sign = "-")
    /\ (1 <= String.length whole)%nat
    /\ String.length frac = 2%nat.
Proof.
  apply (calculateTotalDistance_has_two_decimals no_toString flat_distance MOCK_TREK_DATA);
    vm_compute; reflexivity.
Defined.
